(** * Feature computation of the bundler (libs/sfm/bundler_features.cc)

    A shallow embedding of [Features::compute] (the loop over the views of a
    scene) and of [Features::compute<FEATURE>] (the work done for one view),
    followed by the properties of the feature stage that are checked against
    them.

    Conventions of the embedding:
    - a pointer that may be [NULL] is an [option];
    - the view and the output slot a task works on, together with the calls
      it makes into the view store and the detector, are threaded through a
      small state-and-exception monad [M];
    - the two [while] loops take a bound on their number of iterations; a
      loop that needs more is reported as [Timeout];
    - [int] arithmetic that can overflow is written with its wrap-around;
    - the iterations of the parallel loop work on different views and
      slots; they are run one after the other in the order in which the
      run-time system takes them up, which is left open, and an exception
      that leaves an iteration ends in [std::terminate] when the build
      honours the pragma;
    - progress messages written to [std::cout] are left out. *)

From stdpp Require Import gmap strings list.

Open Scope Z_scope.

(** ** Algorithm variants *)

(** The run-time selector given to [Features::compute].  The enumeration is
    declared in sfm/bundler_features.h; the [switch] of the code names two
    enumerators and has a [default] branch for every other value, which is
    [OTHER_FEATURES] here. *)
Inductive FeatureType : Type :=
  | SIFT_FEATURES
  | SURF_FEATURES
  | OTHER_FEATURES (raw : Z).

(** The template argument [FEATURE] of [Features::compute<FEATURE>]. *)
Inductive FEATURE : Type := Sift | Surf.

(** [Features::descriptor_length<sfm::Sift>] and
    [Features::descriptor_length<sfm::Surf>]. *)
Definition descriptor_length (F : FEATURE) : nat :=
  match F with
  | Sift => 128%nat
  | Surf => 64%nat
  end.

(** ** Exceptions and outcomes *)

Inductive exception : Type :=
  | invalid_argument (what : string)
  | runtime_error (what : string)
  | out_of_range (what : string)
  | collaborator_error (what : string).

(** What a call comes to: a value, a C++ exception that leaves the
    function, the use of a [NULL] pointer, a loop that was still running
    when its iteration bound was reached, or [std::terminate] called for an
    exception that could not leave a parallel region. *)
Inductive result (A : Type) : Type :=
  | Ok (a : A)
  | Throw (e : exception)
  | NullDeref
  | Timeout
  | Terminate (e : exception).

Arguments Ok {A} a.
Arguments Throw {A} e.
Arguments NullDeref {A}.
Arguments Timeout {A}.
Arguments Terminate {A} e.

(** The failure a step hands on to the function that called it; none when
    the step came to a value. *)
Definition failure_of {A B : Type} (r : result A) : option (result B) :=
  match r with
  | Ok _ => None
  | Throw e => Some (Throw e)
  | NullDeref => Some NullDeref
  | Timeout => Some Timeout
  | Terminate e => Some (Terminate e)
  end.

(** ** [int] arithmetic *)

Definition int_min : Z := -2147483648.
Definition int_max : Z := 2147483647.

(** The [int] a mathematical integer comes to (32 bits, two's
    complement). *)
Definition wrap_int (z : Z) : Z :=
  (z + 2147483648) mod 4294967296 - 2147483648.

(** The product of two [int]s, as line 114 computes it.  Overflow of a
    signed product is undefined in C++; it is given the value the compiled
    multiplication has. *)
Definition int_mul (a b : Z) : Z := wrap_int (a * b).

(** ** The build and the run-time system *)

(** What line 28 depends on: whether the build honours the pragma, and the
    order in which the iterations of a loop of [n] iterations are taken up,
    which [schedule(dynamic,1)] leaves open.  Without OpenMP the loop runs
    in index order. *)
Class Runtime : Type := {
  openmp : bool;
  schedule : nat -> list nat;
  schedule_permutation : forall n : nat, schedule n ≡ₚ seq 0 n;
  schedule_in_order :
    openmp = false -> forall n : nat, schedule n = seq 0 n
}.

(** ** Options *)

(** [Features::Options], without the detector sub-options (they are part of
    the detector, see [run_feature] below). *)
Record Options : Type := {
  image_embedding : string;
  feature_embedding : string;
  max_image_size : Z;
  force_recompute : bool;
  skip_saving_views : bool
}.

(** [std::string::empty]. *)
Definition string_empty (s : string) : bool :=
  match s with
  | EmptyString => true
  | String _ _ => false
  end.

(** A [while] loop over a loop state, run for at most [fuel] iterations. *)
Fixpoint while {S : Type} (fuel : nat) (cond : S -> bool) (body : S -> S)
    (s : S) : option S :=
  if cond s then
    match fuel with
    | O => None
    | Datatypes.S fuel' => while fuel' cond body (body s)
    end
  else Some s.

(** ** Collaborators

    The numeric type of descriptor entries, the pixel payload of an image,
    the colour type and the cache blob are those of libraries outside this
    file; nothing below depends on what they are. *)
Class Types : Type := {
  float : Type;
  Pixels : Type;
  Vec3uc : Type;
  Blob : Type;
  float_inhabited :: Inhabited float;
  Vec3uc_inhabited :: Inhabited Vec3uc
}.

Section Bundler.

Context `{T : Types}.

(** [mve::ByteImage]: the two dimensions the code reads, and the payload.
    Dimensions and the pixel budget are [int]s, held as integers; the one
    operation on them that can overflow is the product of line 114
    ([int_mul]). *)
Record ByteImage : Type := {
  image_width : Z;
  image_height : Z;
  image_data : Pixels
}.

(** [FEATURE::Descriptor]: sub-pixel position and the descriptor vector. *)
Record Descriptor : Type := {
  x : float;
  y : float;
  data : list float
}.

Definition Descriptors : Type := list Descriptor.

(** [sfm::bundler::Viewport], restricted to the fields this file writes. *)
Record Viewport : Type := {
  width : Z;
  height : Z;
  positions : list (float * float);
  colors : list Vec3uc;
  descr_data : list float
}.

(** Modelled from the spec: [mve::View], which is not in this file, as the
    view store of the spec: a source image per image-embedding name, a blob
    per data-embedding name, and an identifier. *)
Record View : Type := {
  view_id : Z;
  view_images : gmap string ByteImage;
  view_data : gmap string Blob
}.

(** The functions of other files that the code calls. *)
Class Collaborators : Type := {
  (** the pixel payload of the half-size image *)
  half_size_data : ByteImage -> Pixels;
  (** [Image::linear_at]: the colour sampled at a sub-pixel position *)
  linear_at : ByteImage -> float -> float -> Vec3uc;
  (** [descriptors_to_embedding] and [embedding_to_descriptors] of
      sfm/bundler_common.h; decoding may throw *)
  descriptors_to_embedding : Descriptors -> Z -> Z -> Blob;
  embedding_to_descriptors : Blob -> exception + (Descriptors * Z * Z);
  (** [construct<FEATURE>], [set_image], [process] and [get_descriptors]
      in one step: the detector of a variant run on an image *)
  run_feature : FEATURE -> ByteImage -> exception + Descriptors;
  (** the default-constructed [Viewport] that [resize] fills the output
      list with *)
  Viewport_default : Viewport
}.

Context `{C : !Collaborators} `{RT : !Runtime}.

Variable opts : Options.

(** Modelled from the spec: [mve::image::rescale_half_size], which is not in
    this file; it halves both dimensions by integer floor division. *)
Definition rescale_half_size (img : ByteImage) : ByteImage :=
  {| image_width := image_width img / 2;
     image_height := image_height img / 2;
     image_data := half_size_data img |}.

(** ** The task monad *)

(** The calls a task makes that are visible outside it. *)
Inductive Effect : Type :=
  | GetData (name : string)
  | GetByteImage (name : string)
  | RunFeature (F : FEATURE) (img : ByteImage)
  | SetData (name : string) (blob : Blob)
  | SaveMveFile
  | CacheCleanup.

(** What one call of [compute<FEATURE>] works on: the view, the output slot
    behind [viewport] ([None] for [NULL]) and the calls made so far, oldest
    first. *)
Record Task : Type := {
  task_view : View;
  task_viewport : option Viewport;
  task_effects : list Effect
}.

Definition M (A : Type) : Type := Task -> Task * result A.

Definition ret {A} (a : A) : M A := fun t => (t, Ok a).

Definition bind {A B} (m : M A) (k : A -> M B) : M B :=
  fun t =>
    match m t with
    | (t', Ok a) => k a t'
    | (t', Throw e) => (t', Throw e)
    | (t', NullDeref) => (t', NullDeref)
    | (t', Timeout) => (t', Timeout)
    | (t', Terminate e) => (t', Terminate e)
    end.

Definition throw {A} (e : exception) : M A := fun t => (t, Throw e).
Definition null_deref {A} : M A := fun t => (t, NullDeref).
Definition timeout {A} : M A := fun t => (t, Timeout).

Definition emit (e : Effect) : M unit :=
  fun t =>
    ({| task_view := task_view t;
        task_viewport := task_viewport t;
        task_effects := task_effects t ++ [e] |}, Ok tt).

Definition get_view : M View := fun t => (t, Ok (task_view t)).
Definition get_viewport : M (option Viewport) :=
  fun t => (t, Ok (task_viewport t)).

Definition put_view (v : View) : M unit :=
  fun t =>
    ({| task_view := v;
        task_viewport := task_viewport t;
        task_effects := task_effects t |}, Ok tt).

Definition put_viewport (vp : Viewport) : M unit :=
  fun t =>
    ({| task_view := task_view t;
        task_viewport := Some vp;
        task_effects := task_effects t |}, Ok tt).

Definition lift_sum {A} (r : exception + A) : M A :=
  match r with
  | inl e => throw e
  | inr a => ret a
  end.

Notation "x <- m ;; k" := (bind m (fun x => k))
  (at level 100, m at next level, right associativity).
Notation "m ;;; k" := (bind m (fun _ => k))
  (at level 100, right associativity).

(** ** The view store *)

(** [View::has_data_embedding]. *)
Definition has_data_embedding (name : string) : M bool :=
  v <- get_view ;;
  ret (bool_decide (is_Some (view_data v !! name))).

(** [View::get_data]: the blob, or [NULL]. *)
Definition get_data (name : string) : M (option Blob) :=
  v <- get_view ;;
  emit (GetData name) ;;;
  ret (view_data v !! name).

(** [View::get_byte_image]: the image, or [NULL]. *)
Definition get_byte_image (name : string) : M (option ByteImage) :=
  v <- get_view ;;
  emit (GetByteImage name) ;;;
  ret (view_images v !! name).

(** [View::set_data]. *)
Definition set_data (name : string) (blob : Blob) : M unit :=
  v <- get_view ;;
  emit (SetData name blob) ;;;
  put_view {| view_id := view_id v;
              view_images := view_images v;
              view_data := <[name := blob]> (view_data v) |}.

(** [View::save_mve_file] and [View::cache_cleanup]. *)
Definition save_mve_file : M unit := emit SaveMveFile.
Definition cache_cleanup : M unit := emit CacheCleanup.

(** ** The two rescaling loops *)

(** Lines 113-118, "Rescale image until maximum image size is met": the
    loop state is [(was_scaled, img)]. *)
Definition rescale_to_budget (fuel : nat) (img : ByteImage) (maxPixels : Z)
    : option (bool * ByteImage) :=
  while fuel
    (fun s => int_mul (image_width (snd s)) (image_height (snd s))
              >? maxPixels)
    (fun s => (true, rescale_half_size (snd s)))
    (false, img).

(** Lines 133-138, "Rescale image to exactly the descriptor image size". *)
Definition rescale_to_match (fuel : nat) (img : ByteImage)
    (targetW targetH : Z) : result ByteImage :=
  match
    while fuel
      (fun img => (image_width img >? targetW)
                  && (image_height img >? targetH))
      rescale_half_size img
  with
  | None => Timeout
  | Some img' =>
      if negb (image_width img' =? targetW)
         || negb (image_height img' =? targetH)
      then Throw (runtime_error "Error rescaling image to match descriptors")
      else Ok img'
  end.

(** ** Filling the output slot *)

(** The [for] loop of lines 160-166: [i] is the index of the next
    descriptor and [ptr] the offset of [ptr] from [descr_data.begin()]. *)
Fixpoint fill_viewport (descr_len : nat) (img : ByteImage)
    (descriptors : Descriptors) (i ptr : nat) (vp : Viewport) : Viewport :=
  match descriptors with
  | [] => vp
  | d :: rest =>
      fill_viewport descr_len img rest (S i) (ptr + descr_len)
        {| width := width vp;
           height := height vp;
           positions := <[i := (x d, y d)]> (positions vp);
           colors := <[i := linear_at img (x d) (y d)]> (colors vp);
           descr_data := list_inserts ptr (data d) (descr_data vp) |}
  end.

(** Lines 154-166, "Initialize viewports": [allocate] gives a fresh buffer,
    [resize] keeps what fits of the old vector and pads with default
    elements. *)
Definition initialize_viewport (F : FEATURE) (descriptors : Descriptors)
    (img : ByteImage) (vp : Viewport) : Viewport :=
  let descr_len := descriptor_length F in
  let size := length descriptors in
  fill_viewport descr_len img descriptors 0 0
    {| width := width vp;
       height := height vp;
       positions := resize size inhabitant (positions vp);
       colors := resize size inhabitant (colors vp);
       descr_data := replicate (size * descr_len) inhabitant |}.

(** ** [Features::compute<FEATURE>] *)

(** Lines 86-98: [None] is the early [return] of line 92, [Some d] the
    value of [descriptors] at line 99. *)
Definition load_descriptors : M (option Descriptors) :=
  has_data <- has_data_embedding (feature_embedding opts) ;;
  if negb (force_recompute opts) && has_data then
    viewport <- get_viewport ;;
    match viewport with
    | None => ret None
    | Some vp =>
        data <- get_data (feature_embedding opts) ;;
        match data with
        | None => null_deref
        | Some blob =>
            decoded <- lift_sum (embedding_to_descriptors blob) ;;
            put_viewport {| width := snd (fst decoded);
                            height := snd decoded;
                            positions := positions vp;
                            colors := colors vp;
                            descr_data := descr_data vp |} ;;;
            ret (Some (fst (fst decoded)))
        end
    end
  else ret (Some []).

(** Lines 105-139: the image the descriptors belong to, and the
    descriptors. *)
Definition obtain_image (fuel : nat) (F : FEATURE)
    (descriptors : Descriptors) : M (Descriptors * ByteImage) :=
  loaded <- get_byte_image (image_embedding opts) ;;
  match loaded with
  | None => null_deref
  | Some img =>
      match descriptors with
      | [] =>
          match rescale_to_budget fuel img (max_image_size opts) with
          | None => timeout
          | Some (_, img') =>
              emit (RunFeature F img') ;;;
              computed <- lift_sum (run_feature F img') ;;
              ret (computed, img')
          end
      | _ :: _ =>
          viewport <- get_viewport ;;
          match viewport with
          | None => null_deref
          | Some vp =>
              match rescale_to_match fuel img (width vp) (height vp) with
              | Ok img' => ret (descriptors, img')
              | Throw e => throw e
              | NullDeref => null_deref
              | Timeout => timeout
              | Terminate e => fun t => (t, Terminate e)
              end
          end
      end
  end.

(** Lines 141-149, "Update feature embedding if requested". *)
Definition update_embedding (descriptors : Descriptors) (img : ByteImage)
    : M unit :=
  if negb (string_empty (feature_embedding opts)) then
    set_data (feature_embedding opts)
      (descriptors_to_embedding descriptors
         (image_width img) (image_height img)) ;;;
    if negb (skip_saving_views opts) then save_mve_file else ret tt
  else ret tt.

Definition compute_view (fuel : nat) (F : FEATURE) : M unit :=
  loaded <- load_descriptors ;;
  match loaded with
  | None => ret tt
  | Some descriptors =>
      found <- obtain_image fuel F descriptors ;;
      update_embedding (fst found) (snd found) ;;;
      viewport <- get_viewport ;;
      match viewport with
      | Some vp =>
          put_viewport (initialize_viewport F (fst found) (snd found) vp)
      | None => ret tt
      end ;;;
      cache_cleanup
  end.

(** ** [Features::compute] *)

(** [mve::Scene], as far as the code uses it: the views, some of them
    [NULL]. *)
Record Scene : Type := { get_views : list (option View) }.

(** What a call of [Features::compute] leaves behind: the views, the list
    behind [viewports], and the calls made, each with the index of its
    view. *)
Record Run : Type := {
  run_views : list (option View);
  run_viewports : option (list Viewport);
  run_effects : list (nat * Effect)
}.

(** One iteration of the loop of lines 29-50, for a view that is not
    [NULL]. *)
Definition compute_at (fuel : nat) (type : FeatureType) (i : nat)
    (view : View) (r : Run) : Run * result unit :=
  let slot :=
    match run_viewports r with
    | None => Ok None
    | Some l =>
        match l !! i with
        | Some vp => Ok (Some vp)
        | None => Throw (out_of_range "vector::at")
        end
    end in
  let dispatch (F : FEATURE) (viewport : option Viewport) :=
    let '(t, res) :=
      compute_view fuel F
        {| task_view := view;
           task_viewport := viewport;
           task_effects := [] |} in
    ({| run_views := <[i := Some (task_view t)]> (run_views r);
        run_viewports :=
          match run_viewports r, task_viewport t with
          | Some l, Some vp => Some (<[i := vp]> l)
          | l, _ => l
          end;
        run_effects := run_effects r ++ map (pair i) (task_effects t) |},
     res) in
  match slot with
  | Ok viewport =>
      match type with
      | SIFT_FEATURES => dispatch Sift viewport
      | SURF_FEATURES => dispatch Surf viewport
      | OTHER_FEATURES _ =>
          (r, Throw (invalid_argument "Invalid feature type"))
      end
  | Throw e => (r, Throw e)
  | NullDeref => (r, NullDeref)
  | Timeout => (r, Timeout)
  | Terminate e => (r, Terminate e)
  end.

(** The loop of lines 28-50, over the indices in the order in which the
    iterations are taken up.  An exception that leaves an iteration ends
    the loop: it leaves the function when the pragma is not honoured; under
    OpenMP it cannot leave the parallel region, and [std::terminate] is
    called.  What the run then holds is the work of the iterations that
    were completed. *)
Fixpoint compute_views (fuel : nat) (type : FeatureType)
    (indices : list nat) (r : Run) : Run * result unit :=
  match indices with
  | [] => (r, Ok tt)
  | i :: rest =>
      match run_views r !! i with
      | Some (Some view) =>
          match compute_at fuel type i view r with
          | (r', Ok _) => compute_views fuel type rest r'
          | (r', Throw e) => (r', if openmp then Terminate e else Throw e)
          | failed => failed
          end
      | _ => compute_views fuel type rest r
      end
  end.

(** [Features::compute (scene, type, viewports)]: [viewports] is the list
    behind the pointer, [None] for [NULL]. *)
Definition compute (fuel : nat) (scene : option Scene) (type : FeatureType)
    (viewports : option (list Viewport)) : Run * result unit :=
  match scene with
  | None =>
      ({| run_views := []; run_viewports := viewports; run_effects := [] |},
       Throw (invalid_argument "NULL scene given"))
  | Some scene =>
      let views := get_views scene in
      if match viewports with None => true | Some _ => false end
         && string_empty (feature_embedding opts)
      then
        ({| run_views := views; run_viewports := viewports;
            run_effects := [] |},
         Throw (invalid_argument "No viewports or feature embedding given"))
      else
        compute_views fuel type (schedule (length views))
          {| run_views := views;
             run_viewports :=
               match viewports with
               | None => None
               | Some _ => Some (replicate (length views) Viewport_default)
               end;
             run_effects := [] |}
  end.

(** ** Vocabulary of the properties *)

(** The calls that only read: they leave the view as it is. *)
Definition reads (e : Effect) : Prop :=
  match e with
  | GetData _ | GetByteImage _ | RunFeature _ _ => True
  | SetData _ _ | SaveMveFile | CacheCleanup => False
  end.

(** The condition of lines 88 and 91 under which a view is skipped. *)
Definition skipped (t : Task) : Prop :=
  force_recompute opts = false
  /\ is_Some (view_data (task_view t) !! feature_embedding opts)
  /\ task_viewport t = None.

(** The calls of lines 141-149 and 169, given the blob to write. *)
Definition closing_effects (blob : Blob) : list Effect :=
  (if negb (string_empty (feature_embedding opts)) then
     SetData (feature_embedding opts) blob
     :: (if negb (skip_saving_views opts) then [SaveMveFile] else [])
   else [])
  ++ [CacheCleanup].

(** The view after lines 141-149, given the blob to write. *)
Definition closing_view (blob : Blob) (v : View) : View :=
  if negb (string_empty (feature_embedding opts)) then
    {| view_id := view_id v;
       view_images := view_images v;
       view_data := <[feature_embedding opts := blob]> (view_data v) |}
  else v.

(** What the loop keeps for a cached view when there is no output list. *)
Definition untouched (i : nat) (view : View) (r : Run) : Prop :=
  run_viewports r = None
  /\ run_views r !! i = Some (Some view)
  /\ forall e, (i, e) ∉ run_effects r.

(** The calls a task for variant [F] can make under the options: the cache
    entry is read only when recomputation is not forced, written only under
    a cache-store name, and the view is saved only when saving is not
    switched off. *)
Definition permitted (F : FEATURE) (e : Effect) : Prop :=
  match e with
  | GetData name =>
      name = feature_embedding opts /\ force_recompute opts = false
  | GetByteImage name => name = image_embedding opts
  | RunFeature F' _ => F' = F
  | SetData name _ =>
      name = feature_embedding opts
      /\ string_empty (feature_embedding opts) = false
  | SaveMveFile =>
      string_empty (feature_embedding opts) = false
      /\ skip_saving_views opts = false
  | CacheCleanup => True
  end.

(** The variant the [switch] of lines 37-49 dispatches to. *)
Definition feature_of (type : FeatureType) : option FEATURE :=
  match type with
  | SIFT_FEATURES => Some Sift
  | SURF_FEATURES => Some Surf
  | OTHER_FEATURES _ => None
  end.

(** The output slot of view [i] in a run, if there is an output list. *)
Definition slot_of (r : Run) (i : nat) : option Viewport :=
  match run_viewports r with
  | Some l => l !! i
  | None => None
  end.

(** The calls a run made for view [i], oldest first. *)
Definition effects_at (i : nat) (r : Run) : list Effect :=
  snd <$> filter (fun p => p.1 = i) (run_effects r).

(** The run after the task of view [j] has ended in [t'] (lines 34-35 and
    the writes of the task through [view] and [viewport]). *)
Definition after_task (j : nat) (t' : Task) (r : Run) : Run :=
  {| run_views := <[j := Some (task_view t')]> (run_views r);
     run_viewports :=
       match run_viewports r, task_viewport t' with
       | Some l, Some vp => Some (<[j := vp]> l)
       | l, _ => l
       end;
     run_effects := run_effects r ++ map (pair j) (task_effects t') |}.

(** A run in which the output list, if any, has a slot for every view. *)
Definition slots_match (r : Run) : Prop :=
  forall l, run_viewports r = Some l -> length l = length (run_views r).

(** The run when the loop is entered (lines 18-25): the views of the
    scene, and a default slot for each of them if there is an output list. *)
Definition initial_run (scene : Scene) (viewports : option (list Viewport))
    : Run :=
  {| run_views := get_views scene;
     run_viewports :=
       match viewports with
       | None => None
       | Some _ => Some (replicate (length (get_views scene)) Viewport_default)
       end;
     run_effects := [] |}.

(** The task with one more call on its record. *)
Definition with_effect (t : Task) (e : Effect) : Task :=
  {| task_view := task_view t;
     task_viewport := task_viewport t;
     task_effects := task_effects t ++ [e] |}.

(** The slot with the resolution decoded from the cache entry. *)
Definition with_resolution (vp : Viewport) (w h : Z) : Viewport :=
  {| width := w; height := h; positions := positions vp;
     colors := colors vp; descr_data := descr_data vp |}.

End Bundler.

(** ** A concrete instance

    Stand-ins for the collaborators, used to run the code on example
    scenes: numbers are integers, an image has no payload, a colour is the
    width of the image it was sampled from, and a cache blob is the encoded
    triple itself. *)
Module Example.

#[export] Instance types : Types := {|
  float := Z;
  Pixels := unit;
  Vec3uc := Z;
  Blob := list (Z * Z * list Z) * Z * Z
|}.

Definition encode (d : Descriptor) : Z * Z * list Z := (x d, y d, data d).
Definition decode (e : Z * Z * list Z) : Descriptor :=
  {| x := fst (fst e); y := snd (fst e); data := snd e |}.

(** The detector stand-in finds one feature, at [(1, 2)], whose vector is
    filled with the width of the image. *)
Definition detect (F : FEATURE) (img : ByteImage) : Descriptors :=
  [ {| x := 1; y := 2;
       data := replicate (descriptor_length F) (image_width img) |} ].

#[export] Instance collaborators : Collaborators := {|
  half_size_data := fun _ => tt;
  linear_at := fun img _ _ => image_width img;
  descriptors_to_embedding := fun ds w h => (map encode ds, w, h);
  embedding_to_descriptors := fun b =>
    inr (map decode (fst (fst b)), snd (fst b), snd b);
  run_feature := fun F img => inr (detect F img);
  Viewport_default :=
    {| width := 0; height := 0; positions := []; colors := [];
       descr_data := [] |}
|}.

(** An OpenMP build whose run-time system takes the iterations up in
    index order. *)
#[export] Instance runtime : Runtime := {|
  openmp := true;
  schedule := seq 0;
  schedule_permutation := fun n => reflexivity (seq 0 n);
  schedule_in_order := fun _ n => eq_refl
|}.

Definition image (w h : Z) : ByteImage :=
  {| image_width := w; image_height := h; image_data := tt |}.

(** Options: source image ["original"], cache store ["features"] unless
    [cache] is false, a budget of [budget] pixels. *)
Definition options (cache : bool) (budget : Z) (force skip : bool)
    : Options :=
  {| image_embedding := "original";
     feature_embedding := if cache then "features" else EmptyString;
     max_image_size := budget;
     force_recompute := force;
     skip_saving_views := skip |}.

(** A view with a [w] x [h] source image and no cache entry. *)
Definition fresh_view (w h : Z) : View :=
  {| view_id := 0;
     view_images := {[ "original" := image w h ]};
     view_data := ∅ |}.

(** A view with a [w] x [h] source image and a cache entry holding one
    SURF descriptor computed at [cw] x [ch]. *)
Definition cached_view (w h cw ch : Z) : View :=
  {| view_id := 1;
     view_images := {[ "original" := image w h ]};
     view_data :=
       {[ "features" :=
            ([(1, 2, replicate (descriptor_length Surf) 5)], cw, ch) ]} |}.

Definition task (v : View) (vp : option Viewport) : Task :=
  {| task_view := v; task_viewport := vp; task_effects := [] |}.

(** Cache store configured, a budget of 5000 pixels, no forced
    recomputation, views are saved. *)
Definition cache_options : Options := options true 5000 false false.

(** A cached view whose source image is four times as wide and high as the
    resolution of its descriptors, with an output slot: the load path. *)
Definition load_task : Task :=
  task (cached_view 256 256 64 64) (Some Viewport_default).

(** The same view without an output slot: skipped. *)
Definition skip_task : Task := task (cached_view 256 256 64 64) None.

(** A view without a cache entry, with an output slot: the compute path. *)
Definition fresh_task : Task :=
  task (fresh_view 100 100) (Some Viewport_default).

(** A scene of two views, the first cached and the second not. *)
Definition two_views : Scene :=
  {| get_views := [Some (cached_view 256 256 64 64);
                   Some (fresh_view 100 100)] |}.

(** A scene whose only view is [NULL]. *)
Definition absent_view : Scene := {| get_views := [None] |}.

(** A scene of one view without a cache entry. *)
Definition one_fresh_view : Scene :=
  {| get_views := [Some (fresh_view 100 100)] |}.

(** A view whose cache entry holds no descriptor at all. *)
Definition empty_cached_view (w h cw ch : Z) : View :=
  {| view_id := 2;
     view_images := {[ "original" := image w h ]};
     view_data := {[ "features" := ([], cw, ch) ]} |}.

(** A cached view whose source image cannot be halved to the cached
    resolution, with an output slot. *)
Definition mismatched_task : Task :=
  task (cached_view 100 100 64 64) (Some Viewport_default).

(** Options without a cache store. *)
Definition plain_options : Options := options false 5000 false false.

End Example.

(** * Properties *)

(** ** Loops *)

Section While.

Context {S : Type} (cond : S -> bool) (body : S -> S).

(** A loop that ends has run its body some number of times; the condition
    held before each of these runs and fails at the end. *)
Lemma while_Some (fuel : nat) (s s' : S) :
  while fuel cond body s = Some s' ->
  exists n : nat,
    (n <= fuel)%nat
    /\ s' = Nat.iter n body s
    /\ cond s' = false
    /\ forall k : nat, (k < n)%nat -> cond (Nat.iter k body s) = true.
Proof.
  revert s. induction fuel as [|fuel IH]; intros s; simpl.
  - destruct (cond s) eqn:Hc; [discriminate|].
    intros [= <-]. exists 0%nat. repeat split; auto. intros k Hk. lia.
  - destruct (cond s) eqn:Hc.
    + intros Hw. destruct (IH _ Hw) as (n & Hn & -> & Hend & Hbefore).
      exists (Datatypes.S n). rewrite Nat.iter_succ_r.
      repeat split; auto; [lia|].
      intros [|k] Hk; simpl; [exact Hc|].
      rewrite <- Nat.iter_succ, Nat.iter_succ_r. apply Hbefore. lia.
    + intros [= <-]. exists 0%nat. repeat split; auto; [lia|].
      intros k Hk. lia.
Qed.

(** A loop whose body decreases a measure, on states that satisfy an
    invariant, ends within as many iterations as the measure counts. *)
Lemma while_terminates (Inv : S -> Prop) (measure : S -> nat) :
  (forall s, Inv s -> cond s = true -> Inv (body s)) ->
  (forall s, Inv s -> cond s = true -> (measure (body s) < measure s)%nat) ->
  forall (fuel : nat) (s : S),
    Inv s -> (measure s <= fuel)%nat ->
    exists s', while fuel cond body s = Some s'.
Proof.
  intros Hinv Hdec fuel. induction fuel as [|fuel IH]; intros s Hs Hm; simpl.
  - destruct (cond s) eqn:Hc; [|eauto].
    specialize (Hdec s Hs Hc). lia.
  - destruct (cond s) eqn:Hc; [|eauto].
    apply IH; [auto|]. specialize (Hdec s Hs Hc). lia.
Qed.

(** A loop whose condition holds before each of its first [n] runs and
    fails after them ends there, given [n] iterations. *)
Lemma while_iter (n : nat) :
  forall (fuel : nat) (s : S),
    (n <= fuel)%nat ->
    (forall k : nat, (k < n)%nat -> cond (Nat.iter k body s) = true) ->
    cond (Nat.iter n body s) = false ->
    while fuel cond body s = Some (Nat.iter n body s).
Proof.
  induction n as [|n IH]; intros fuel s Hfuel Hbefore Hend.
  - simpl in Hend. destruct fuel; simpl; by rewrite Hend.
  - destruct fuel as [|fuel]; [lia|].
    assert (cond s = true) as H0 by (apply (Hbefore 0%nat); lia).
    simpl while. rewrite H0, Nat.iter_succ_r.
    apply IH; [lia| |by rewrite <- Nat.iter_succ_r].
    intros k Hk. rewrite <- Nat.iter_succ_r. apply Hbefore. lia.
Qed.

End While.

Section Properties.

Context `{T : Types} `{C : !Collaborators} `{RT : !Runtime}.

Variable opts : Options.

(** ** Halving *)

Lemma half_lt (n : Z) : 0 < n -> 0 <= n / 2 < n.
Proof. intros Hn. split; [apply Z.div_pos; lia|apply Z.div_lt; lia]. Qed.

Lemma half_nonneg (n : Z) : 0 <= n -> 0 <= n / 2.
Proof. intros Hn. apply Z.div_pos; lia. Qed.

(** C3: [rescale_to_match] halves the image while its width exceeds the
    target width and its height the target height: if halving [n] times is
    the first to leave this condition, the result is decided there, and it
    is the image halved [n] times when that has exactly the target
    dimensions, and the resolution mismatch error otherwise.  So what it
    returns has exactly the target dimensions, for every image and every
    target, and it throws only when the loop ended with other dimensions.
    For a target that is a resolution (no negative dimension) the loop
    ends within as many halvings as the image is wide and high. *)
Theorem rescale_to_match_exact (fuel : nat) (img : ByteImage)
    (targetW targetH : Z) :
  (forall img', rescale_to_match fuel img targetW targetH = Ok img' ->
     image_width img' = targetW /\ image_height img' = targetH
     /\ exists n : nat,
          img' = Nat.iter n rescale_half_size img
          /\ forall k : nat, (k < n)%nat ->
               image_width (Nat.iter k rescale_half_size img) > targetW
               /\ image_height (Nat.iter k rescale_half_size img) > targetH)
  /\ (forall e, rescale_to_match fuel img targetW targetH = Throw e ->
        e = runtime_error "Error rescaling image to match descriptors"
        /\ exists n : nat,
             (forall k : nat, (k < n)%nat ->
                image_width (Nat.iter k rescale_half_size img) > targetW
                /\ image_height (Nat.iter k rescale_half_size img)
                   > targetH)
             /\ ~ (image_width (Nat.iter n rescale_half_size img) > targetW
                   /\ image_height (Nat.iter n rescale_half_size img)
                      > targetH)
             /\ (image_width (Nat.iter n rescale_half_size img) <> targetW
                 \/ image_height (Nat.iter n rescale_half_size img)
                    <> targetH))
  /\ rescale_to_match fuel img targetW targetH <> NullDeref
  /\ (forall e, rescale_to_match fuel img targetW targetH <> Terminate e)
  /\ (0 <= targetW \/ 0 <= targetH ->
      (Z.to_nat (image_width img) + Z.to_nat (image_height img) <= fuel)%nat ->
      rescale_to_match fuel img targetW targetH <> Timeout)
  /\ (forall n : nat,
        (n <= fuel)%nat ->
        (forall k : nat, (k < n)%nat ->
           image_width (Nat.iter k rescale_half_size img) > targetW
           /\ image_height (Nat.iter k rescale_half_size img) > targetH) ->
        ~ (image_width (Nat.iter n rescale_half_size img) > targetW
           /\ image_height (Nat.iter n rescale_half_size img) > targetH) ->
        rescale_to_match fuel img targetW targetH
        = if (image_width (Nat.iter n rescale_half_size img) =? targetW)
             && (image_height (Nat.iter n rescale_half_size img) =? targetH)
          then Ok (Nat.iter n rescale_half_size img)
          else Throw (runtime_error
                        "Error rescaling image to match descriptors")).
Proof.
  set (cond := fun i : ByteImage =>
         (image_width i >? targetW) && (image_height i >? targetH)).
  assert (Hcond : forall i, cond i = true
            <-> image_width i > targetW /\ image_height i > targetH).
  { intros i. unfold cond. rewrite andb_true_iff, !Z.gtb_lt. lia. }
  assert (Hdecided : forall n : nat,
    (n <= fuel)%nat ->
    (forall k : nat, (k < n)%nat ->
       image_width (Nat.iter k rescale_half_size img) > targetW
       /\ image_height (Nat.iter k rescale_half_size img) > targetH) ->
    ~ (image_width (Nat.iter n rescale_half_size img) > targetW
       /\ image_height (Nat.iter n rescale_half_size img) > targetH) ->
    rescale_to_match fuel img targetW targetH
    = if (image_width (Nat.iter n rescale_half_size img) =? targetW)
         && (image_height (Nat.iter n rescale_half_size img) =? targetH)
      then Ok (Nat.iter n rescale_half_size img)
      else Throw (runtime_error
                    "Error rescaling image to match descriptors")).
  { intros n Hn Hbefore Hend. unfold rescale_to_match. fold cond.
    rewrite (while_iter cond rescale_half_size n fuel img Hn).
    - by destruct (image_width _ =? targetW), (image_height _ =? targetH).
    - intros k Hk. apply Hcond. by apply Hbefore.
    - destruct (cond (Nat.iter n rescale_half_size img)) eqn:Hc; [|done].
      apply Hcond in Hc. contradiction. }
  unfold rescale_to_match in Hdecided |- *. fold cond in Hdecided |- *.
  destruct (while fuel cond rescale_half_size img) as [r|] eqn:Hw.
  - destruct (while_Some _ _ _ _ _ Hw) as (n & Hn & Hr & Hend & Hbefore).
    assert (Hbefore' : forall k : nat, (k < n)%nat ->
              image_width (Nat.iter k rescale_half_size img) > targetW
              /\ image_height (Nat.iter k rescale_half_size img) > targetH).
    { intros k Hk. apply Hcond. by apply Hbefore. }
    assert (Hend' : ~ (image_width r > targetW /\ image_height r > targetH)).
    { intros Hc. apply Hcond in Hc. congruence. }
    destruct (negb (image_width r =? targetW)
              || negb (image_height r =? targetH)) eqn:Hne.
    + split; [intros img' [=]|].
      split.
      { intros e [= <-]. split; [reflexivity|].
        exists n. rewrite <- Hr. split; [exact Hbefore'|].
        split; [exact Hend'|].
        apply orb_true_iff in Hne as [H1|H1];
          apply negb_true_iff, Z.eqb_neq in H1; auto. }
      split; [discriminate|]. split; [discriminate|].
      split; [intros _ _; discriminate|exact Hdecided].
    + apply orb_false_elim in Hne as [H1 H2].
      apply negb_false_iff, Z.eqb_eq in H1.
      apply negb_false_iff, Z.eqb_eq in H2.
      split.
      { intros img' [= <-]. split; [exact H1|]. split; [exact H2|].
        exists n. split; [exact Hr|exact Hbefore']. }
      split; [intros e [=]|]. split; [discriminate|].
      split; [discriminate|].
      split; [intros _ _; discriminate|exact Hdecided].
  - split; [intros img' [=]|]. split; [intros e [=]|].
    split; [discriminate|]. split; [discriminate|].
    split; [|exact Hdecided].
    intros Htarget Hfuel _.
    assert (exists r, while fuel cond rescale_half_size img = Some r)
      as [r Hr]; [|congruence].
    destruct Htarget as [Hw0|Hh0].
    + apply (while_terminates cond rescale_half_size (fun _ => True)
               (fun i => Z.to_nat (image_width i))); auto; [|lia].
      intros s _ Hc. apply Hcond in Hc.
      simpl. pose proof (half_lt (image_width s)). lia.
    + apply (while_terminates cond rescale_half_size (fun _ => True)
               (fun i => Z.to_nat (image_height i))); auto; [|lia].
      intros s _ Hc. apply Hcond in Hc.
      simpl. pose proof (half_lt (image_height s)). lia.
Qed.

Lemma wrap_int_small (z : Z) :
  int_min <= z <= int_max -> wrap_int z = z.
Proof.
  unfold int_min, int_max, wrap_int. intros Hz.
  rewrite Z.mod_small by lia. lia.
Qed.

(** Halving an image keeps its dimensions non-negative and its pixel count
    within the range of [int]. *)
Lemma half_size_in_range (img : ByteImage) :
  0 <= image_width img -> 0 <= image_height img ->
  image_width img * image_height img <= int_max ->
  0 <= image_width (rescale_half_size img)
  /\ 0 <= image_height (rescale_half_size img)
  /\ image_width (rescale_half_size img)
     * image_height (rescale_half_size img) <= int_max.
Proof.
  intros Hw Hh Hp. simpl.
  pose proof (half_nonneg _ Hw). pose proof (half_nonneg _ Hh).
  assert (image_width img / 2 <= image_width img)
    by (apply Z.div_le_upper_bound; lia).
  assert (image_height img / 2 <= image_height img)
    by (apply Z.div_le_upper_bound; lia).
  repeat split; [done|done|nia].
Qed.

(** C4, as the code has it: for an image (no negative dimension) whose
    pixel count is within the range of [int], and a budget of at least one
    pixel, [rescale_to_budget] ends, within as many halvings as the image
    is wide; the pixel count of its result is within the budget; the result
    is the image halved some number of times, at least once when the image
    was over the budget. *)
Theorem rescale_to_budget_within_budget (fuel : nat) (img : ByteImage)
    (maxPixels : Z) :
  0 <= image_width img -> 0 <= image_height img ->
  image_width img * image_height img <= int_max ->
  1 <= maxPixels ->
  (Z.to_nat (image_width img) <= fuel)%nat ->
  exists (was_scaled : bool) (img' : ByteImage) (n : nat),
    rescale_to_budget fuel img maxPixels = Some (was_scaled, img')
    /\ image_width img' * image_height img' <= maxPixels
    /\ img' = Nat.iter n rescale_half_size img
    /\ (image_width img * image_height img > maxPixels ->
        (1 <= n)%nat /\ was_scaled = true).
Proof.
  intros Hw Hh Hp Hmax Hfuel. unfold rescale_to_budget.
  set (cond := fun s : bool * ByteImage =>
         int_mul (image_width (snd s)) (image_height (snd s)) >? maxPixels).
  set (body := fun s : bool * ByteImage =>
         (true, rescale_half_size (snd s))).
  set (Inv := fun s : bool * ByteImage =>
         0 <= image_width (snd s) /\ 0 <= image_height (snd s)
         /\ image_width (snd s) * image_height (snd s) <= int_max).
  assert (Hin : forall s, Inv s ->
            int_mul (image_width s.2) (image_height s.2)
            = image_width s.2 * image_height s.2).
  { intros s (H1 & H2 & H3). apply wrap_int_small.
    unfold int_min. split; [nia|done]. }
  assert (Hstep : forall s, Inv s -> Inv (body s)).
  { intros s (H1 & H2 & H3). by apply half_size_in_range. }
  destruct (while_terminates cond body Inv
              (fun s => Z.to_nat (image_width (snd s)))) with
    (fuel := fuel) (s := (false, img)) as [[scaled r] Hr]; simpl; auto.
  - intros s Hs Hc. unfold cond in Hc. rewrite (Hin s Hs) in Hc.
    apply Z.gtb_lt in Hc. destruct Hs as (H1 & H2 & _).
    assert (0 < image_width s.2) by nia.
    pose proof (half_lt (image_width s.2)). lia.
  - by repeat split.
  - exists scaled, r.
    destruct (while_Some _ _ _ _ _ Hr) as (n & _ & Hiter & Hend & Hbefore).
    exists n. split; [exact Hr|].
    assert (Hsnd : forall k s, snd (Nat.iter k body s)
                               = Nat.iter k rescale_half_size (snd s)).
    { induction k as [|k IH]; intros s; simpl; [reflexivity|].
      by rewrite IH. }
    assert (Hall : forall k, Inv (Nat.iter k body (false, img))).
    { induction k as [|k IH]; simpl; [by repeat split|by apply Hstep]. }
    pose proof (Hall n) as Hr'. rewrite <- Hiter in Hr'.
    unfold cond in Hend. rewrite (Hin _ Hr') in Hend. simpl in Hend.
    rewrite Z.gtb_ltb in Hend. apply Z.ltb_ge in Hend.
    split; [exact Hend|]. split.
    + pose proof (Hsnd n (false, img)) as Hn. rewrite <- Hiter in Hn.
      exact Hn.
    + intros Hover. destruct n as [|n].
      * simpl in Hiter. injection Hiter as -> ->. lia.
      * split; [lia|]. simpl in Hiter. by injection Hiter as -> _.
Qed.

(** ** The output slot *)

Lemma fill_viewport_shape (descr_len : nat) (img : ByteImage)
    (ds : Descriptors) (i ptr : nat) (vp : Viewport) :
  let vp' := fill_viewport descr_len img ds i ptr vp in
  width vp' = width vp /\ height vp' = height vp
  /\ length (positions vp') = length (positions vp)
  /\ length (colors vp') = length (colors vp)
  /\ length (descr_data vp') = length (descr_data vp).
Proof.
  revert i ptr vp. induction ds as [|d ds IH]; intros i ptr vp; simpl; [done|].
  destruct (IH (S i) (ptr + descr_len)%nat
              {| width := width vp; height := height vp;
                 positions := <[i := (x d, y d)]> (positions vp);
                 colors := <[i := linear_at img (x d) (y d)]> (colors vp);
                 descr_data := list_inserts ptr (data d) (descr_data vp) |})
    as (-> & -> & -> & -> & ->); simpl.
  by rewrite !length_insert, length_inserts.
Qed.

(** The loop writes at and above its current index and offset only. *)
Lemma fill_viewport_below (descr_len : nat) (img : ByteImage)
    (ds : Descriptors) (i ptr : nat) (vp : Viewport) :
  let vp' := fill_viewport descr_len img ds i ptr vp in
  (forall k : nat, (k < i)%nat ->
     positions vp' !! k = positions vp !! k
     /\ colors vp' !! k = colors vp !! k)
  /\ (forall k : nat, (k < ptr)%nat ->
        descr_data vp' !! k = descr_data vp !! k).
Proof.
  revert i ptr vp. induction ds as [|d ds IH]; intros i ptr vp; simpl; [done|].
  destruct (IH (S i) (ptr + descr_len)%nat
              {| width := width vp; height := height vp;
                 positions := <[i := (x d, y d)]> (positions vp);
                 colors := <[i := linear_at img (x d) (y d)]> (colors vp);
                 descr_data := list_inserts ptr (data d) (descr_data vp) |})
    as [Hpc Hd]; simpl in *.
  split.
  - intros k Hk. destruct (Hpc k) as [-> ->]; [lia|].
    by rewrite !list_lookup_insert_ne by lia.
  - intros k Hk. rewrite Hd by lia. by apply list_lookup_inserts_lt.
Qed.

(** What the loop leaves for the descriptor at index [k] of those it is
    given. *)
Lemma fill_viewport_at (descr_len : nat) (img : ByteImage)
    (ds : Descriptors) (i ptr : nat) (vp : Viewport) (k : nat)
    (d : Descriptor) :
  let vp' := fill_viewport descr_len img ds i ptr vp in
  ds !! k = Some d ->
  ((i + k < length (positions vp))%nat ->
     positions vp' !! (i + k)%nat = Some (x d, y d))
  /\ ((i + k < length (colors vp))%nat ->
       colors vp' !! (i + k)%nat = Some (linear_at img (x d) (y d)))
  /\ (forall (j : nat) (v : float),
        (j < descr_len)%nat -> data d !! j = Some v ->
        (ptr + k * descr_len + j < length (descr_data vp))%nat ->
        descr_data vp' !! (ptr + k * descr_len + j)%nat = Some v).
Proof.
  revert i ptr vp k.
  induction ds as [|d0 ds IH]; intros i ptr vp k; simpl; [done|].
  set (vp1 := {| width := width vp; height := height vp;
                 positions := <[i := (x d0, y d0)]> (positions vp);
                 colors := <[i := linear_at img (x d0) (y d0)]> (colors vp);
                 descr_data := list_inserts ptr (data d0) (descr_data vp) |}).
  destruct k as [|k]; simpl.
  - intros [= ->].
    destruct (fill_viewport_below descr_len img ds (S i)
                (ptr + descr_len)%nat vp1) as [Hpc Hd].
    rewrite Nat.add_0_r. split; [|split].
    + intros Hi. destruct (Hpc i) as [-> _]; [lia|].
      by apply list_lookup_insert_eq.
    + intros Hi. destruct (Hpc i) as [_ ->]; [lia|].
      by apply list_lookup_insert_eq.
    + intros j v Hj Hv Hlen. rewrite Hd by lia. simpl.
      rewrite list_lookup_inserts.
      * replace (ptr + 0 + j - ptr)%nat with j by lia. exact Hv.
      * apply lookup_lt_Some in Hv. lia.
      * lia.
  - intros Hk.
    destruct (IH (S i) (ptr + descr_len)%nat vp1 k Hk) as (Hp & Hc & Hd).
    unfold vp1 in Hp, Hc, Hd. simpl in Hp, Hc, Hd.
    rewrite length_insert in Hp. rewrite length_insert in Hc.
    rewrite length_inserts in Hd.
    replace (i + S k)%nat with (S i + k)%nat by lia.
    split; [exact Hp|]. split; [exact Hc|].
    intros j v Hj Hv Hlen.
    replace (ptr + (descr_len + k * descr_len) + j)%nat
      with (ptr + descr_len + k * descr_len + j)%nat by lia.
    apply Hd; auto. lia.
Qed.

(** C5: the slot filled from [n] descriptors has [n] positions, [n] colours
    and a buffer of [n * descriptor_length] entries, and the vector of
    descriptor [i] lies in the buffer from offset [i * descriptor_length]
    on; its position and the colour sampled there are at index [i]. *)
Theorem initialize_viewport_layout (F : FEATURE) (descriptors : Descriptors)
    (img : ByteImage) (vp : Viewport) :
  let n := length descriptors in
  let vp' := initialize_viewport F descriptors img vp in
  length (positions vp') = n
  /\ length (colors vp') = n
  /\ length (descr_data vp') = (n * descriptor_length F)%nat
  /\ forall (i : nat) (d : Descriptor),
       descriptors !! i = Some d ->
       positions vp' !! i = Some (x d, y d)
       /\ colors vp' !! i = Some (linear_at img (x d) (y d))
       /\ forall (j : nat) (v : float),
            (j < descriptor_length F)%nat -> data d !! j = Some v ->
            descr_data vp' !! (i * descriptor_length F + j)%nat = Some v.
Proof.
  intros n vp'. subst vp'. unfold initialize_viewport. fold n.
  set (vp0 := {| width := width vp; height := height vp;
                 positions := resize n inhabitant (positions vp);
                 colors := resize n inhabitant (colors vp);
                 descr_data :=
                   replicate (n * descriptor_length F) inhabitant |}).
  destruct (fill_viewport_shape (descriptor_length F) img descriptors
              0 0 vp0) as (_ & _ & Hp & Hc & Hd).
  unfold vp0 in Hp, Hc, Hd. simpl in Hp, Hc, Hd.
  rewrite length_resize in Hp. rewrite length_resize in Hc.
  rewrite length_replicate in Hd.
  split; [exact Hp|]. split; [exact Hc|]. split; [exact Hd|].
  intros i d Hi.
  assert (i < n)%nat as Hin by (by apply lookup_lt_Some in Hi).
  destruct (fill_viewport_at (descriptor_length F) img descriptors
              0 0 vp0 i d Hi) as (Hpos & Hcol & Hdat).
  unfold vp0 in Hpos, Hcol, Hdat. simpl in Hpos, Hcol, Hdat.
  rewrite length_resize in Hpos. rewrite length_resize in Hcol.
  rewrite length_replicate in Hdat.
  split; [by apply Hpos|]. split; [by apply Hcol|].
  intros j v Hj Hv. apply Hdat; auto. nia.
Qed.

(** ** One view *)

Ltac unfold_task :=
  unfold compute_view, load_descriptors, obtain_image, update_embedding,
    has_data_embedding, get_data, get_byte_image, set_data, save_mve_file,
    cache_cleanup, get_view, get_viewport, put_view, put_viewport, emit,
    lift_sum, throw, null_deref, timeout, bind, ret in *.

(** A skipped view: [compute<FEATURE>] returns at once and leaves the task
    as it found it. *)
Lemma compute_view_skipped (fuel : nat) (F : FEATURE) (t : Task) :
  skipped opts t -> compute_view opts fuel F t = (t, Ok tt).
Proof.
  intros (Hforce & Hdata & Hvp). unfold_task. simpl.
  rewrite Hforce. simpl. rewrite bool_decide_eq_true_2 by done.
  by rewrite Hvp.
Qed.

(** Lines 86-98 read the cache at most; when they go on to line 99 the view
    is not a skipped one. *)
Lemma load_descriptors_frame (t t' : Task) (r : result (option Descriptors)) :
  load_descriptors opts t = (t', r) ->
  task_view t' = task_view t
  /\ (exists es, task_effects t' = task_effects t ++ es /\ Forall reads es)
  /\ (is_Some (task_viewport t') <-> is_Some (task_viewport t))
  /\ (r = Ok None -> skipped opts t /\ t' = t)
  /\ (forall ds, r = Ok (Some ds) -> ~ skipped opts t).
Proof.
  unfold skipped. unfold_task. simpl.
  destruct (force_recompute opts) eqn:Hforce; simpl.
  { intros [= <- <-]. split; [done|]. split.
    - exists []. by rewrite app_nil_r.
    - split; [done|]. split; [done|]. intros ds _ (? & _). done. }
  destruct (bool_decide (is_Some (view_data (task_view t)
                                    !! feature_embedding opts))) eqn:Hdata.
  2:{ apply bool_decide_eq_false in Hdata.
      intros [= <- <-]. split; [done|]. split.
      - exists []. by rewrite app_nil_r.
      - split; [done|]. split; [done|]. intros ds _ (_ & ? & _). done. }
  apply bool_decide_eq_true in Hdata.
  destruct (task_viewport t) as [vp|] eqn:Hvp.
  2:{ intros [= <- <-]. split; [done|]. split.
      - exists []. by rewrite app_nil_r.
      - rewrite Hvp. split; [done|]. split; [done|]. done. }
  simpl. destruct (view_data (task_view t) !! feature_embedding opts)
    as [blob|] eqn:Hblob; simpl.
  2:{ intros [= <- <-]. simpl. split; [done|]. split.
      - eexists. split; [done|]. by repeat constructor.
      - rewrite Hvp. split; [done|]. split; [done|].
        intros ds _ (_ & _ & ?). done. }
  destruct (embedding_to_descriptors blob) as [e|decoded]; simpl;
    intros [= <- <-]; simpl.
  - split; [done|]. split.
    + eexists. split; [done|]. by repeat constructor.
    + rewrite Hvp. split; [done|]. split; [done|].
      intros ds _ (_ & _ & ?). done.
  - split; [done|]. split.
    + eexists. split; [done|]. by repeat constructor.
    + split; [split; eauto|]. split; [done|].
      intros ds _ (_ & _ & ?). done.
Qed.

(** Lines 105-139 read the source image and may run the detector; the view
    and the output slot stay as they are. *)
Lemma obtain_image_frame (fuel : nat) (F : FEATURE) (ds : Descriptors)
    (t t' : Task) (r : result (Descriptors * ByteImage)) :
  obtain_image opts fuel F ds t = (t', r) ->
  task_view t' = task_view t
  /\ task_viewport t' = task_viewport t
  /\ exists es, task_effects t' = task_effects t ++ es /\ Forall reads es.
Proof.
  unfold_task. simpl.
  destruct (view_images (task_view t) !! image_embedding opts) as [img|];
    simpl.
  2:{ intros [= <- <-]. simpl. repeat split.
      eexists. split; [done|]. by repeat constructor. }
  destruct ds as [|d ds].
  - destruct (rescale_to_budget fuel img (max_image_size opts))
      as [[scaled img']|]; simpl.
    2:{ intros [= <- <-]. simpl. repeat split.
        eexists. split; [done|]. by repeat constructor. }
    destruct (run_feature F img') as [e|computed]; simpl;
      intros [= <- <-]; simpl; repeat split;
      rewrite <- app_assoc; eexists; (split; [done|]);
      by repeat constructor.
  - destruct (task_viewport t) as [vp|]; simpl.
    2:{ intros [= <- <-]. simpl. repeat split.
        eexists. split; [done|]. by repeat constructor. }
    destruct (rescale_to_match fuel img (width vp) (height vp)); simpl;
      intros [= <- <-]; simpl; repeat split;
      eexists; (split; [done|]); by repeat constructor.
Qed.

(** A call of [compute<FEATURE>] that returns normally either skipped the
    view, or went through lines 86-98 and 105-139 to some descriptors and
    an image, and ended with the write-back, the output slot and the
    clean-up for them. *)
Lemma compute_view_Ok (fuel : nat) (F : FEATURE) (t t' : Task) :
  compute_view opts fuel F t = (t', Ok tt) ->
  (skipped opts t /\ t' = t)
  \/ (~ skipped opts t
      /\ exists t1 descriptors t2 found,
          load_descriptors opts t = (t1, Ok (Some descriptors))
          /\ obtain_image opts fuel F descriptors t1 = (t2, Ok found)
          /\ let blob :=
               descriptors_to_embedding found.1
                 (image_width found.2) (image_height found.2) in
             task_view t' = closing_view opts blob (task_view t)
             /\ task_viewport t'
                = initialize_viewport F found.1 found.2 <$> task_viewport t1
             /\ task_effects t' = task_effects t2 ++ closing_effects opts blob).
Proof.
  unfold compute_view at 1, bind at 1.
  destruct (load_descriptors opts t) as [t1 [[ds|]| | | |]] eqn:Hload;
    try discriminate.
  2:{ intros [= <-].
      destruct (load_descriptors_frame _ _ _ Hload) as (_ & _ & _ & Hskip & _).
      destruct Hskip as [Hskip ->]; auto. }
  destruct (load_descriptors_frame _ _ _ Hload) as (Hv1 & _ & _ & _ & Hnot).
  unfold bind at 1.
  destruct (obtain_image opts fuel F ds t1) as [t2 [found| | | |]] eqn:Himg;
    try discriminate.
  destruct (obtain_image_frame _ _ _ _ _ _ Himg) as (Hv2 & Hvp2 & _).
  intros Hrest. right. split; [by eapply Hnot|].
  exists t1, ds, t2, found. split; [done|]. split; [done|].
  revert Hrest. unfold closing_view, closing_effects. unfold_task. simpl.
  rewrite <- Hv1, <- Hv2, <- Hvp2.
  destruct (string_empty (feature_embedding opts)); simpl;
    [|destruct (skip_saving_views opts); simpl];
    destruct (task_viewport t2) eqn:Hslot; simpl; intros [= <-]; simpl;
    rewrite ?Hslot, <- ?app_assoc; done.
Qed.

(** The calls made on the way to the write-back only read. *)
Lemma processing_reads (fuel : nat) (F : FEATURE) (t t1 t2 : Task)
    (ds : Descriptors) (found : Descriptors * ByteImage) :
  task_effects t = [] ->
  load_descriptors opts t = (t1, Ok (Some ds)) ->
  obtain_image opts fuel F ds t1 = (t2, Ok found) ->
  Forall reads (task_effects t2).
Proof.
  intros Hfresh Hload Himg.
  destruct (load_descriptors_frame _ _ _ Hload)
    as (_ & (es1 & He1 & Hr1) & _).
  destruct (obtain_image_frame _ _ _ _ _ _ Himg)
    as (_ & _ & (es2 & He2 & Hr2)).
  rewrite He2, He1, Hfresh. simpl. by apply Forall_app.
Qed.

(** C6: with a cache-store name configured, a view that was processed (its
    task was not skipped and returned normally), on the load path as on the
    compute path, has the descriptors and the dimensions of the image they
    belong to encoded and stored as its cache entry; [skip_saving_views]
    decides only whether the view is saved afterwards. *)
Theorem write_back_on_both_paths (fuel : nat) (F : FEATURE) (t t' : Task) :
  string_empty (feature_embedding opts) = false ->
  task_effects t = [] ->
  ~ skipped opts t ->
  compute_view opts fuel F t = (t', Ok tt) ->
  exists t1 descriptors t2 found,
    load_descriptors opts t = (t1, Ok (Some descriptors))
    /\ obtain_image opts fuel F descriptors t1 = (t2, Ok found)
    /\ let blob :=
         descriptors_to_embedding found.1
           (image_width found.2) (image_height found.2) in
       view_data (task_view t') !! feature_embedding opts = Some blob
       /\ SetData (feature_embedding opts) blob ∈ task_effects t'
       /\ (SaveMveFile ∈ task_effects t'
           <-> skip_saving_views opts = false).
Proof.
  intros Hname Hfresh Hnot Hrun.
  destruct (compute_view_Ok _ _ _ _ Hrun) as [[Hskip _]|(_ & Hok)];
    [contradiction|].
  destruct Hok as (t1 & ds & t2 & found & Hload & Himg & Hview & _ & Heff).
  exists t1, ds, t2, found. split; [done|]. split; [done|].
  pose proof (processing_reads _ _ _ _ _ _ _ Hfresh Hload Himg) as Hreads.
  simpl in *. rewrite Hview, Heff.
  unfold closing_view, closing_effects. rewrite Hname. simpl.
  split; [apply lookup_insert_eq|].
  split; [set_solver|].
  rewrite Forall_forall in Hreads.
  destruct (skip_saving_views opts); simpl; split; try done.
  - rewrite !elem_of_app, !elem_of_cons, elem_of_nil.
    intros [Hin|[?|[?|?]]]; try done. by apply Hreads in Hin.
  - intros _. set_solver.
Qed.

(** C7: with [force_recompute] off, a view that has a cache entry and no
    output slot is skipped: its task returns normally without having
    fetched the source image or run the detector. *)
Theorem cached_view_without_output_is_skipped (fuel : nat) (F : FEATURE)
    (t : Task) :
  force_recompute opts = false ->
  is_Some (view_data (task_view t) !! feature_embedding opts) ->
  task_viewport t = None ->
  task_effects t = [] ->
  exists t',
    compute_view opts fuel F t = (t', Ok tt)
    /\ (forall name, GetByteImage name ∉ task_effects t')
    /\ (forall F' img, RunFeature F' img ∉ task_effects t').
Proof.
  intros Hforce Hdata Hvp Hfresh. exists t.
  split; [by apply compute_view_skipped|].
  rewrite Hfresh. split; intros; apply not_elem_of_nil.
Qed.

(** C9, as the code has it: a task that returns normally has either
    skipped its view, and then made no call at all, or has called the
    clean-up of the view exactly once, as its last call. *)
Theorem cache_cleanup_after_processing (fuel : nat) (F : FEATURE)
    (t t' : Task) :
  task_effects t = [] ->
  compute_view opts fuel F t = (t', Ok tt) ->
  (skipped opts t /\ task_effects t' = [])
  \/ (~ skipped opts t
      /\ exists es,
          task_effects t' = es ++ [CacheCleanup] /\ CacheCleanup ∉ es).
Proof.
  intros Hfresh Hrun.
  destruct (compute_view_Ok _ _ _ _ Hrun) as [[Hskip ->]|(Hnot & Hok)];
    [by left|right].
  split; [done|].
  destruct Hok as (t1 & ds & t2 & found & Hload & Himg & _ & _ & Heff).
  pose proof (processing_reads _ _ _ _ _ _ _ Hfresh Hload Himg) as Hreads.
  rewrite Forall_forall in Hreads.
  simpl in Heff. rewrite Heff. unfold closing_effects.
  rewrite app_assoc. eexists. split; [done|].
  rewrite elem_of_app. intros [Hin|Hin]; [by apply Hreads in Hin|].
  destruct (string_empty (feature_embedding opts)); simpl in Hin;
    [by apply elem_of_nil in Hin|].
  destruct (skip_saving_views opts); simpl in Hin;
    repeat (apply elem_of_cons in Hin as [Hin|Hin]; [discriminate|]);
    by apply elem_of_nil in Hin.
Qed.

(** ** The whole scene *)

(** C8: a [NULL] scene, and a [NULL] output list together with an empty
    cache-store name, each make [compute] throw [invalid_argument] at once:
    no call has been made for any view, and the views and the output list
    are as they were given. *)
Theorem compute_checks_arguments (fuel : nat) (scene : option Scene)
    (type : FeatureType) (viewports : option (list Viewport)) :
  scene = None
  \/ (viewports = None /\ string_empty (feature_embedding opts) = true) ->
  exists what,
    compute opts fuel scene type viewports
    = ({| run_views := from_option get_views [] scene;
          run_viewports := viewports;
          run_effects := [] |},
       Throw (invalid_argument what)).
Proof.
  intros [->|[-> Hname]]; [by eexists|].
  destruct scene as [scene|]; [|by eexists].
  unfold compute. rewrite Hname. simpl. by eexists.
Qed.

(** With an unrecognised variant, the loop ends at the first view it takes
    up that is not [NULL]: [invalid_argument] is thrown, and nothing has
    been done before.  The exception leaves the function only when the
    pragma is not honoured. *)
Lemma compute_views_other (fuel : nat) (raw : Z) (indices : list nat)
    (r : Run) :
  slots_match r ->
  (exists j view, j ∈ indices /\ run_views r !! j = Some (Some view)) ->
  compute_views opts fuel (OTHER_FEATURES raw) indices r
  = (r, if openmp
        then Terminate (invalid_argument "Invalid feature type")
        else Throw (invalid_argument "Invalid feature type")).
Proof.
  intros Hout. induction indices as [|i rest IH]; intros Hsome.
  - destruct Hsome as (j & view & Hj & _). by apply elem_of_nil in Hj.
  - simpl. destruct (run_views r !! i) as [[view|]|] eqn:Hi.
    + unfold compute_at.
      destruct (run_viewports r) as [l|] eqn:Hl; [|done].
      destruct (l !! i) as [vp|] eqn:Hvp; [done|].
      apply lookup_ge_None in Hvp. specialize (Hout l Hl).
      apply lookup_lt_Some in Hi. lia.
    + apply IH. destruct Hsome as (j & view & Hj & Hlook).
      exists j, view. split; [|done].
      apply elem_of_cons in Hj as [->|Hj]; [congruence|done].
    + apply IH. destruct Hsome as (j & view & Hj & Hlook).
      exists j, view. split; [|done].
      apply elem_of_cons in Hj as [->|Hj]; [congruence|done].
Qed.

(** X17: an unrecognised variant, when the scene has a view that is
    not [NULL] and the arguments pass the check of line 15:
    [invalid_argument] is thrown in the first iteration taken up for such
    a view.  No view has been worked on by then, and the output list, when
    there is one, has been reset to one default slot per view.  In a build
    without OpenMP the exception reaches the caller; under OpenMP it cannot
    leave the parallel region and the program is terminated. *)
Theorem compute_unknown_variant (fuel : nat) (scene : Scene) (raw : Z)
    (viewports : option (list Viewport)) :
  (exists i view, get_views scene !! i = Some (Some view)) ->
  is_Some viewports \/ string_empty (feature_embedding opts) = false ->
  compute opts fuel (Some scene) (OTHER_FEATURES raw) viewports
  = (initial_run scene viewports,
     if openmp
     then Terminate (invalid_argument "Invalid feature type")
     else Throw (invalid_argument "Invalid feature type")).
Proof.
  intros (i & view & Hi) Hargs. unfold compute.
  destruct (_ && _) eqn:Hcheck.
  { apply andb_true_iff in Hcheck as [Hvp Hname].
    destruct viewports; [discriminate|].
    destruct Hargs as [[? [=]]|?]; congruence. }
  apply (compute_views_other fuel raw _ (initial_run scene viewports)).
  - intros l. unfold initial_run. simpl. destruct viewports; [|done].
    intros [= <-]. apply length_replicate.
  - exists i, view. split; [|done].
    rewrite schedule_permutation. apply elem_of_seq.
    apply lookup_lt_Some in Hi. lia.
Qed.

(** One iteration without an output list either leaves the run as it is or
    is a call of [compute<FEATURE>] on the view with a [NULL] slot. *)
Lemma compute_at_no_output (fuel : nat) (type : FeatureType) (j : nat)
    (view : View) (r r' : Run) (res : result unit) :
  run_viewports r = None ->
  compute_at opts fuel type j view r = (r', res) ->
  r' = r
  \/ exists F t',
      compute_view opts fuel F
        {| task_view := view; task_viewport := None; task_effects := [] |}
      = (t', res)
      /\ r' = {| run_views := <[j := Some (task_view t')]> (run_views r);
                 run_viewports := None;
                 run_effects :=
                   run_effects r ++ map (pair j) (task_effects t') |}.
Proof.
  intros Hnone. unfold compute_at. rewrite Hnone.
  destruct type as [| |raw].
  - destruct (compute_view opts fuel Sift _) as [t' res'] eqn:Hrun.
    intros [= <- <-]. right. by exists Sift, t'.
  - destruct (compute_view opts fuel Surf _) as [t' res'] eqn:Hrun.
    intros [= <- <-]. right. by exists Surf, t'.
  - intros [= <- <-]. by left.
Qed.

Lemma compute_at_untouched (fuel : nat) (type : FeatureType) (i j : nat)
    (view view' : View) (r r' : Run) (res : result unit) :
  force_recompute opts = false ->
  is_Some (view_data view !! feature_embedding opts) ->
  run_views r !! j = Some (Some view') ->
  untouched i view r ->
  compute_at opts fuel type j view' r = (r', res) ->
  untouched i view r'.
Proof.
  intros Hforce Hdata Hj (Hnone & Hi & Heff) Hrun.
  destruct (compute_at_no_output _ _ _ _ _ _ _ Hnone Hrun)
    as [->|(F & t' & Hview & ->)]; [done|].
  destruct (decide (j = i)) as [->|Hne].
  - assert (view' = view) as -> by congruence.
    rewrite compute_view_skipped in Hview by done.
    injection Hview as <- <-. simpl.
    split; [done|]. split.
    + apply list_lookup_insert_eq. by apply lookup_lt_Some in Hi.
    + intros e. by rewrite app_nil_r.
  - split; [done|]. split; simpl.
    + by rewrite list_lookup_insert_ne.
    + intros e. rewrite elem_of_app. intros [Hin|Hin]; [by eapply Heff|].
      apply list_elem_of_fmap in Hin as (e' & [= -> _] & _). done.
Qed.

Lemma compute_views_untouched (fuel : nat) (type : FeatureType) (i : nat)
    (view : View) (indices : list nat) (r r' : Run) (res : result unit) :
  force_recompute opts = false ->
  is_Some (view_data view !! feature_embedding opts) ->
  untouched i view r ->
  compute_views opts fuel type indices r = (r', res) ->
  untouched i view r'.
Proof.
  intros Hforce Hdata. revert r.
  induction indices as [|j rest IH]; intros r Hr; simpl.
  - by intros [= <- _].
  - destruct (run_views r !! j) as [[view'|]|] eqn:Hj; [|by apply IH..].
    destruct (compute_at opts fuel type j view' r) as [r1 res1] eqn:Hat.
    pose proof (compute_at_untouched _ _ _ _ _ _ _ _ _ Hforce Hdata Hj Hr Hat)
      as Hr1.
    destruct res1; [by apply IH|by intros [= <- _]..].
Qed.

(** C10: with [force_recompute] off and no output list, a view of the scene
    that has a cache entry comes out of [compute] exactly as it went in,
    and no call was made for it: no write-back, no save, no clean-up.
    This holds whatever the cache-store name and whatever happens to the
    other views. *)
Theorem cached_view_is_left_unmodified (fuel : nat) (scene : Scene)
    (type : FeatureType) (i : nat) (view : View) (r : Run)
    (res : result unit) :
  force_recompute opts = false ->
  get_views scene !! i = Some (Some view) ->
  is_Some (view_data view !! feature_embedding opts) ->
  compute opts fuel (Some scene) type None = (r, res) ->
  run_views r !! i = Some (Some view)
  /\ forall e, (i, e) ∉ run_effects r.
Proof.
  intros Hforce Hi Hdata. unfold compute. simpl.
  destruct (string_empty (feature_embedding opts)).
  - intros [= <- _]. simpl. split; [done|]. intros e. apply not_elem_of_nil.
  - intros Hrun.
    eapply compute_views_untouched in Hrun as (_ & Hview & Heff); eauto.
    split; [done|]. split; [done|]. intros e. apply not_elem_of_nil.
Qed.

(** ** The resolution recorded in the output slot *)

(** Without a usable cache entry, lines 86-98 do nothing. *)
Lemma load_descriptors_none (t : Task) :
  force_recompute opts = true
  \/ view_data (task_view t) !! feature_embedding opts = None ->
  load_descriptors opts t = (t, Ok (Some [])).
Proof.
  intros Hpath. unfold_task. simpl.
  destruct Hpath as [->| ->]; [done|].
  rewrite bool_decide_eq_false_2; [by rewrite andb_false_r|].
  by intros [? ?].
Qed.

(** On the compute path nothing assigns [width] and [height] of the output
    slot: after the call they are what they were before it, whatever the
    resolution of the image the detector ran on. *)
Lemma recompute_keeps_slot_resolution (fuel : nat) (F : FEATURE)
    (t t' : Task) (vp : Viewport) :
  force_recompute opts = true
  \/ view_data (task_view t) !! feature_embedding opts = None ->
  task_viewport t = Some vp ->
  compute_view opts fuel F t = (t', Ok tt) ->
  exists vp',
    task_viewport t' = Some vp'
    /\ width vp' = width vp /\ height vp' = height vp.
Proof.
  intros Hpath Hvp Hrun.
  destruct (compute_view_Ok _ _ _ _ Hrun) as [[(_ & _ & Hnone) _]|(_ & Hok)];
    [congruence|].
  destruct Hok as (t1 & ds & t2 & found & Hload & _ & _ & Hslot & _).
  rewrite load_descriptors_none in Hload by done.
  injection Hload as <- <-. rewrite Hvp in Hslot. simpl in Hslot.
  eexists. split; [exact Hslot|].
  unfold initialize_viewport.
  destruct (fill_viewport_shape (descriptor_length F) found.2 found.1 0 0
              {| width := width vp; height := height vp;
                 positions :=
                   resize (length found.1) inhabitant (positions vp);
                 colors := resize (length found.1) inhabitant (colors vp);
                 descr_data :=
                   replicate (length found.1 * descriptor_length F)
                     inhabitant |})
    as (Hw & Hh & _).
  by rewrite Hw, Hh.
Qed.

(** Descriptors that come out of lines 86-98 not empty were decoded from
    the cache entry, and the slot then holds the decoded resolution. *)
Lemma load_descriptors_loaded (t t1 : Task) (d : Descriptor)
    (ds : Descriptors) :
  load_descriptors opts t = (t1, Ok (Some (d :: ds))) ->
  exists blob w h vp,
    view_data (task_view t) !! feature_embedding opts = Some blob
    /\ embedding_to_descriptors blob = inr (d :: ds, w, h)
    /\ task_viewport t1 = Some vp
    /\ width vp = w /\ height vp = h.
Proof.
  unfold_task. simpl.
  destruct (negb (force_recompute opts) && _); [|discriminate].
  destruct (task_viewport t) as [vp|]; [|discriminate]. simpl.
  destruct (view_data (task_view t) !! feature_embedding opts)
    as [blob|]; [|discriminate].
  destruct (embedding_to_descriptors blob) as [e|[[ds' w] h]] eqn:Hdec;
    simpl; [discriminate|].
  intros [= <- ->]. simpl. by eexists blob, w, h, _.
Qed.

(** On the load path the image that is kept has the resolution held by the
    slot, and the descriptors are the decoded ones. *)
Lemma obtain_image_loaded (fuel : nat) (F : FEATURE) (d : Descriptor)
    (ds : Descriptors) (t t' : Task) (found : Descriptors * ByteImage) :
  obtain_image opts fuel F (d :: ds) t = (t', Ok found) ->
  found.1 = d :: ds
  /\ exists vp,
      task_viewport t = Some vp
      /\ image_width found.2 = width vp
      /\ image_height found.2 = height vp.
Proof.
  unfold_task. simpl.
  destruct (view_images (task_view t) !! image_embedding opts) as [img|];
    [|discriminate]. simpl.
  destruct (task_viewport t) as [vp|]; [|discriminate].
  destruct (rescale_to_match fuel img (width vp) (height vp)) as [img'| | | |]
    eqn:Hmatch; try discriminate.
  intros [= _ <-]. simpl. split; [done|]. exists vp. split; [done|].
  unfold rescale_to_match in Hmatch.
  destruct (while _ _ _ _) as [r|]; [|discriminate].
  destruct (negb (image_width r =? width vp)
            || negb (image_height r =? height vp)) eqn:Hne; [discriminate|].
  injection Hmatch as <-. apply orb_false_elim in Hne as [H1 H2].
  apply negb_false_iff, Z.eqb_eq in H1.
  apply negb_false_iff, Z.eqb_eq in H2. done.
Qed.

(** On the load path the slot ends with the resolution stored in the cache
    entry, which is also that of the image its colours were sampled from. *)
Lemma loaded_slot_records_resolution (fuel : nat) (F : FEATURE)
    (t t1 t' : Task) (d : Descriptor) (ds : Descriptors) :
  load_descriptors opts t = (t1, Ok (Some (d :: ds))) ->
  compute_view opts fuel F t = (t', Ok tt) ->
  exists blob w h img vp',
    view_data (task_view t) !! feature_embedding opts = Some blob
    /\ embedding_to_descriptors blob = inr (d :: ds, w, h)
    /\ image_width img = w /\ image_height img = h
    /\ task_viewport t' = Some vp'
    /\ width vp' = w /\ height vp' = h.
Proof.
  intros Hload Hrun.
  destruct (compute_view_Ok _ _ _ _ Hrun) as [[Hskip ->]|(_ & Hok)].
  { destruct (load_descriptors_frame _ _ _ Hload) as (_ & _ & _ & _ & Hnot).
    by destruct (Hnot _ eq_refl). }
  destruct Hok as (t1' & ds' & t2 & found & Hload' & Himg & _ & Hslot & _).
  rewrite Hload in Hload'. injection Hload' as <- <-.
  destruct (load_descriptors_loaded _ _ _ _ Hload)
    as (blob & w & h & vp & Hblob & Hdec & Hvp & Hw & Hh).
  destruct (obtain_image_loaded _ _ _ _ _ _ _ Himg)
    as (Hds & vp2 & Hvp2 & Hiw & Hih).
  assert (vp2 = vp) as -> by congruence.
  rewrite Hvp in Hslot. simpl in Hslot. rewrite Hds in Hslot.
  exists blob, w, h, found.2, (initialize_viewport F (d :: ds) found.2 vp).
  split; [done|]. split; [done|]. split; [congruence|]. split; [congruence|].
  split; [done|].
  unfold initialize_viewport.
  set (vp0 := {| width := width vp; height := height vp;
                 positions := _; colors := _; descr_data := _ |}).
  destruct (fill_viewport_shape (descriptor_length F) found.2 (d :: ds) 0 0
              vp0) as (Hw' & Hh' & _).
  split; [by rewrite Hw'|by rewrite Hh'].
Qed.

(** * Further properties *)

(** ** One view, whatever its outcome *)

(** Lines 86-98 call the view at most once, to fetch the cache entry, and
    only when recomputation is not forced. *)
Lemma load_descriptors_effects (t t' : Task)
    (r : result (option Descriptors)) :
  load_descriptors opts t = (t', r) ->
  exists es,
    task_effects t' = task_effects t ++ es
    /\ Forall (fun e => e = GetData (feature_embedding opts)
                        /\ force_recompute opts = false) es.
Proof.
  unfold_task. simpl.
  destruct (force_recompute opts) eqn:Hforce; simpl.
  { intros [= <- <-]. exists []. by rewrite app_nil_r. }
  destruct (bool_decide _).
  2:{ intros [= <- <-]. exists []. by rewrite app_nil_r. }
  destruct (task_viewport t) as [vp|].
  2:{ intros [= <- <-]. exists []. by rewrite app_nil_r. }
  simpl. destruct (view_data (task_view t) !! feature_embedding opts)
    as [blob|]; simpl.
  2:{ intros [= <- <-]. simpl. eexists. split; [done|].
      by repeat constructor. }
  destruct (embedding_to_descriptors blob) as [e|decoded]; simpl;
    intros [= <- <-]; simpl; eexists; (split; [done|]);
    by repeat constructor.
Qed.

(** Lines 105-139 fetch the source image and, only when they were given no
    descriptors, run the detector. *)
Lemma obtain_image_effects (fuel : nat) (F : FEATURE) (ds : Descriptors)
    (t t' : Task) (r : result (Descriptors * ByteImage)) :
  obtain_image opts fuel F ds t = (t', r) ->
  exists es,
    task_effects t' = task_effects t ++ es
    /\ Forall (fun e => e = GetByteImage (image_embedding opts)
                        \/ (ds = [] /\ exists img, e = RunFeature F img)) es.
Proof.
  unfold_task. simpl.
  destruct (view_images (task_view t) !! image_embedding opts) as [img|];
    simpl.
  2:{ intros [= <- <-]. simpl. eexists. split; [done|].
      apply Forall_cons_2; [by left|apply Forall_nil_2]. }
  destruct ds as [|d ds].
  - destruct (rescale_to_budget fuel img (max_image_size opts))
      as [[scaled img']|]; simpl.
    2:{ intros [= <- <-]. simpl. eexists. split; [done|].
        apply Forall_cons_2; [by left|apply Forall_nil_2]. }
    destruct (run_feature F img') as [e|computed]; simpl;
      intros [= <- <-]; simpl; rewrite <- app_assoc; eexists;
      (split; [done|]);
      (apply Forall_cons_2; [by left|]);
      (apply Forall_cons_2; [right; eauto|apply Forall_nil_2]).
  - destruct (task_viewport t) as [vp|]; simpl.
    2:{ intros [= <- <-]. simpl. eexists. split; [done|].
        apply Forall_cons_2; [by left|apply Forall_nil_2]. }
    destruct (rescale_to_match fuel img (width vp) (height vp)); simpl;
      intros [= <- <-]; simpl; eexists; (split; [done|]);
      (apply Forall_cons_2; [by left|apply Forall_nil_2]).
Qed.

(** Once lines 86-139 are through, the rest of [compute<FEATURE>] cannot
    fail: a call that does not return normally ended in one of the two. *)
Lemma compute_view_failure (fuel : nat) (F : FEATURE) (t t' : Task)
    (res : result unit) :
  compute_view opts fuel F t = (t', res) ->
  res <> Ok tt ->
  (exists r, load_descriptors opts t = (t', r))
  \/ (exists t1 ds r,
        load_descriptors opts t = (t1, Ok (Some ds))
        /\ obtain_image opts fuel F ds t1 = (t', r)).
Proof.
  unfold compute_view at 1, bind at 1.
  destruct (load_descriptors opts t) as [t1 [[ds|]| | | |]] eqn:Hload;
    try (intros [= <- <-] _; left; by eexists).
  unfold bind at 1.
  destruct (obtain_image opts fuel F ds t1) as [t2 [found| | | |]] eqn:Himg;
    try (intros [= <- <-] _; right; by eexists t1, ds, _).
  unfold_task. simpl.
  destruct (negb (string_empty (feature_embedding opts))); simpl;
    [destruct (negb (skip_saving_views opts)); simpl|];
    destruct (task_viewport t2); simpl; intros [= <- <-] Hres;
    by destruct Hres.
Qed.

Lemma result_unit_cases (res : result unit) : res = Ok tt \/ res <> Ok tt.
Proof. destruct res as [[]| | | |]; [by left|by right..]. Qed.

(** Every call of a task is one the options permit, whatever the outcome;
    a task that does not return normally has only read. *)
Lemma compute_view_trace (fuel : nat) (F : FEATURE) (t t' : Task)
    (res : result unit) :
  compute_view opts fuel F t = (t', res) ->
  exists es,
    task_effects t' = task_effects t ++ es
    /\ Forall (permitted opts F) es
    /\ (res <> Ok tt -> task_view t' = task_view t /\ Forall reads es).
Proof.
  intros Hrun.
  assert (Hload_ok : forall es,
    Forall (fun e => e = GetData (feature_embedding opts)
                     /\ force_recompute opts = false) es ->
    Forall (permitted opts F) es /\ Forall reads es).
  { intros es Hes. split; eapply Forall_impl; try exact Hes;
      by intros e [-> ?]. }
  assert (Himg_ok : forall (ds : Descriptors) es,
    Forall (fun e => e = GetByteImage (image_embedding opts)
                     \/ (ds = [] /\ exists img, e = RunFeature F img)) es ->
    Forall (permitted opts F) es /\ Forall reads es).
  { intros ds es Hes. split; eapply Forall_impl; try exact Hes;
      by intros e [->|[_ [img ->]]]. }
  destruct (result_unit_cases res) as [->|Hres].
  - destruct (compute_view_Ok _ _ _ _ Hrun) as [[_ ->]|(_ & Hok)].
    { exists []. rewrite app_nil_r. by repeat split. }
    destruct Hok as (t1 & ds & t2 & found & Hload & Himg & _ & _ & Heff).
    destruct (load_descriptors_effects _ _ _ Hload) as (es1 & He1 & Hp1).
    destruct (obtain_image_effects _ _ _ _ _ _ Himg) as (es2 & He2 & Hp2).
    simpl in Heff. rewrite Heff, He2, He1, <- !app_assoc.
    eexists. split; [done|]. split; [|done].
    apply Forall_app. split; [by apply Hload_ok|].
    apply Forall_app. split; [by eapply Himg_ok|].
    unfold closing_effects.
    destruct (string_empty (feature_embedding opts)) eqn:Hname; simpl;
      [by repeat constructor|].
    destruct (skip_saving_views opts) eqn:Hskip; simpl;
      by repeat constructor.
  - destruct (compute_view_failure _ _ _ _ _ Hrun Hres)
      as [[r Hload]|(t1 & ds & r & Hload & Himg)].
    + destruct (load_descriptors_effects _ _ _ Hload) as (es1 & He1 & Hp1).
      destruct (load_descriptors_frame _ _ _ Hload) as (Hv & _).
      exists es1. split; [done|]. destruct (Hload_ok _ Hp1). by repeat split.
    + destruct (load_descriptors_effects _ _ _ Hload) as (es1 & He1 & Hp1).
      destruct (obtain_image_effects _ _ _ _ _ _ Himg) as (es2 & He2 & Hp2).
      destruct (load_descriptors_frame _ _ _ Hload) as (Hv1 & _).
      destruct (obtain_image_frame _ _ _ _ _ _ Himg) as (Hv2 & _).
      exists (es1 ++ es2). rewrite He2, He1, <- app_assoc.
      split; [done|].
      destruct (Hload_ok _ Hp1), (Himg_ok _ _ Hp2).
      split; [by apply Forall_app|]. intros _.
      split; [congruence|by apply Forall_app].
Qed.

(** A task has an output slot when it ends exactly if it had one when it
    began. *)
Lemma compute_view_slot (fuel : nat) (F : FEATURE) (t t' : Task)
    (res : result unit) :
  compute_view opts fuel F t = (t', res) ->
  is_Some (task_viewport t') <-> is_Some (task_viewport t).
Proof.
  intros Hrun. destruct (result_unit_cases res) as [->|Hres].
  - destruct (compute_view_Ok _ _ _ _ Hrun) as [[_ ->]|(_ & Hok)]; [done|].
    destruct Hok as (t1 & ds & t2 & found & Hload & _ & _ & Hslot & _).
    destruct (load_descriptors_frame _ _ _ Hload) as (_ & _ & <- & _).
    rewrite Hslot. apply fmap_is_Some.
  - destruct (compute_view_failure _ _ _ _ _ Hrun Hres)
      as [[r Hload]|(t1 & ds & r & Hload & Himg)].
    + by destruct (load_descriptors_frame _ _ _ Hload) as (_ & _ & ? & _).
    + destruct (load_descriptors_frame _ _ _ Hload) as (_ & _ & <- & _).
      destruct (obtain_image_frame _ _ _ _ _ _ Himg) as (_ & -> & _). done.
Qed.

(** ** The loop over the views *)

(** One iteration either throws before any work (unknown variant, or no
    slot at the index) or is the task of the view, run from its slot with
    no call made yet. *)
Lemma compute_at_inv (fuel : nat) (type : FeatureType) (j : nat)
    (view : View) (r r' : Run) (res : result unit) :
  compute_at opts fuel type j view r = (r', res) ->
  (r' = r /\ res <> Ok tt)
  \/ exists F t',
      feature_of type = Some F
      /\ compute_view opts fuel F
           {| task_view := view; task_viewport := slot_of r j;
              task_effects := [] |} = (t', res)
      /\ r' = after_task j t' r.
Proof.
  unfold compute_at, slot_of, after_task.
  destruct (run_viewports r) as [l|] eqn:Hl.
  - destruct (l !! j) as [vp|] eqn:Hvp.
    + destruct type as [| |raw]; simpl.
      * destruct (compute_view opts fuel Sift _) as [t' res'] eqn:Hrun.
        intros [= <- <-]. right. by exists Sift, t'.
      * destruct (compute_view opts fuel Surf _) as [t' res'] eqn:Hrun.
        intros [= <- <-]. right. by exists Surf, t'.
      * intros [= <- <-]. by left.
    + intros [= <- <-]. by left.
  - destruct type as [| |raw]; simpl.
    + destruct (compute_view opts fuel Sift _) as [t' res'] eqn:Hrun.
      intros [= <- <-]. right. by exists Sift, t'.
    + destruct (compute_view opts fuel Surf _) as [t' res'] eqn:Hrun.
      intros [= <- <-]. right. by exists Surf, t'.
    + intros [= <- <-]. by left.
Qed.

Lemma filter_tagged {A : Type} (i j : nat) (es : list A) :
  (filter (fun p : nat * A => p.1 = i) (map (pair j) es)).*2
  = if decide (i = j) then es else [].
Proof.
  induction es as [|e es IH]; simpl.
  - by destruct (decide (i = j)).
  - rewrite filter_cons. simpl.
    destruct (decide (j = i)) as [->|Hne]; simpl.
    + rewrite decide_True in IH by done. rewrite decide_True by done.
      f_equal. exact IH.
    + rewrite decide_False in IH by done. rewrite decide_False by done.
      exact IH.
Qed.

Lemma effects_at_after_task (i j : nat) (t' : Task) (r : Run) :
  effects_at i (after_task j t' r)
  = effects_at i r ++ (if decide (i = j) then task_effects t' else []).
Proof.
  unfold effects_at, after_task. simpl.
  rewrite filter_app, fmap_app. f_equal. apply filter_tagged.
Qed.

(** The task of a view leaves the other views, their slots and the record
    of their calls alone. *)
Lemma after_task_other (i j : nat) (t' : Task) (r : Run) :
  i <> j ->
  run_views (after_task j t' r) !! i = run_views r !! i
  /\ slot_of (after_task j t' r) i = slot_of r i
  /\ effects_at i (after_task j t' r) = effects_at i r.
Proof.
  intros Hne. split; [|split].
  - simpl. by apply list_lookup_insert_ne.
  - unfold slot_of, after_task. simpl.
    destruct (run_viewports r) as [l|]; [|done].
    destruct (task_viewport t'); [|done].
    by apply list_lookup_insert_ne.
  - rewrite effects_at_after_task, decide_False by done.
    by rewrite app_nil_r.
Qed.

(** The loop leaves alone every view whose iteration it does not take up
    and every view that is [NULL]. *)
Lemma compute_views_frame (fuel : nat) (type : FeatureType) (i : nat)
    (indices : list nat) (r r' : Run) (res : result unit) :
  compute_views opts fuel type indices r = (r', res) ->
  i ∉ indices \/ run_views r !! i = Some None ->
  run_views r' !! i = run_views r !! i
  /\ slot_of r' i = slot_of r i
  /\ effects_at i r' = effects_at i r.
Proof.
  revert r. induction indices as [|j rest IH]; intros r; simpl.
  - by intros [= <- _] _.
  - intros Hrun Hi.
    destruct (run_views r !! j) as [[view|]|] eqn:Hj.
    + assert (i <> j) as Hne.
      { intros ->. destruct Hi as [Hi|Hi]; [|congruence].
        apply Hi. by left. }
      destruct (compute_at opts fuel type j view r) as [r1 res1] eqn:Hat.
      assert (run_views r1 !! i = run_views r !! i
              /\ slot_of r1 i = slot_of r i
              /\ effects_at i r1 = effects_at i r) as (Hv & Hs & He).
      { destruct (compute_at_inv _ _ _ _ _ _ _ Hat)
          as [[-> _]|(F & t' & _ & _ & ->)]; [done|].
        by apply after_task_other. }
      destruct res1; [|by injection Hrun as <- _..].
      destruct (IH _ Hrun) as (Hv' & Hs' & He').
      { rewrite Hv. destruct Hi as [Hi|Hi]; [left|by right].
        intros Hin. apply Hi. by right. }
      by rewrite Hv', Hs', He'.
    + apply (IH _ Hrun). destruct Hi as [Hi|Hi]; [left|by right].
      intros Hin. apply Hi. by right.
    + apply (IH _ Hrun). destruct Hi as [Hi|Hi]; [left|by right].
      intros Hin. apply Hi. by right.
Qed.

(** The task of a view keeps the number of views and of slots. *)
Lemma after_task_lengths (j : nat) (t' : Task) (r : Run) :
  length (run_views (after_task j t' r)) = length (run_views r)
  /\ length <$> run_viewports (after_task j t' r)
     = length <$> run_viewports r.
Proof.
  unfold after_task. simpl. rewrite length_insert. split; [done|].
  destruct (run_viewports r) as [l|]; [|done].
  destruct (task_viewport t'); simpl; [|done]. by rewrite length_insert.
Qed.

Lemma compute_views_lengths (fuel : nat) (type : FeatureType)
    (indices : list nat) (r r' : Run) (res : result unit) :
  compute_views opts fuel type indices r = (r', res) ->
  length (run_views r') = length (run_views r)
  /\ length <$> run_viewports r' = length <$> run_viewports r.
Proof.
  revert r. induction indices as [|j rest IH]; intros r; simpl.
  - by intros [= <- _].
  - destruct (run_views r !! j) as [[view|]|] eqn:Hj; [|by apply IH..].
    destruct (compute_at opts fuel type j view r) as [r1 res1] eqn:Hat.
    assert (length (run_views r1) = length (run_views r)
            /\ length <$> run_viewports r1 = length <$> run_viewports r)
      as [Hv Hs].
    { destruct (compute_at_inv _ _ _ _ _ _ _ Hat)
        as [[-> _]|(F & t' & _ & _ & ->)]; [done|].
      apply after_task_lengths. }
    destruct res1; [|by intros [= <- _]..].
    intros Hrun. destruct (IH _ Hrun) as [Hv' Hs']. split; congruence.
Qed.

Lemma after_task_slots_match (j : nat) (t' : Task) (r : Run) :
  slots_match r -> slots_match (after_task j t' r).
Proof.
  intros Hr l Hl.
  destruct (after_task_lengths j t' r) as [Hv Hs].
  rewrite Hl in Hs. rewrite Hv.
  destruct (run_viewports r) as [l0|] eqn:Hl0; [|discriminate].
  injection Hs as ->. by apply Hr.
Qed.

(** When the loop ends normally, what it leaves for a view whose iteration
    it has taken up is what the task of that view leaves, run on the view
    and its slot as they were, with no call made yet. *)
Lemma compute_views_at (fuel : nat) (type : FeatureType) (i : nat)
    (v : View) (indices : list nat) (r r' : Run) :
  compute_views opts fuel type indices r = (r', Ok tt) ->
  slots_match r ->
  NoDup indices -> i ∈ indices ->
  run_views r !! i = Some (Some v) ->
  exists F t',
    feature_of type = Some F
    /\ compute_view opts fuel F
         {| task_view := v; task_viewport := slot_of r i;
            task_effects := [] |} = (t', Ok tt)
    /\ run_views r' !! i = Some (Some (task_view t'))
    /\ slot_of r' i = task_viewport t'
    /\ effects_at i r' = effects_at i r ++ task_effects t'.
Proof.
  revert r. induction indices as [|j rest IH]; intros r; simpl.
  { intros _ _ _ Hin. by apply elem_of_nil in Hin. }
  intros Hrun Hwf Hnodup Hin Hi.
  apply NoDup_cons in Hnodup as [Hj_rest Hnodup].
  destruct (run_views r !! j) as [[view|]|] eqn:Hj.
  - destruct (compute_at opts fuel type j view r) as [r1 res1] eqn:Hat.
    destruct res1 as [[]|e| | |];
      try (by injection Hrun); try (by destruct openmp).
    destruct (compute_at_inv _ _ _ _ _ _ _ Hat)
      as [[_ Hres]|(F & t' & HF & Hview & ->)]; [done|].
    destruct (decide (i = j)) as [->|Hne].
    + assert (view = v) as -> by congruence.
      destruct (compute_views_frame _ _ j _ _ _ _ Hrun) as (-> & -> & ->);
        [by left|].
      exists F, t'. split; [done|]. split; [done|].
      split; [|split].
      * simpl. apply list_lookup_insert_eq. by apply lookup_lt_Some in Hi.
      * pose proof (compute_view_slot _ _ _ _ _ Hview) as Hslot.
        simpl in Hslot. unfold slot_of in *. unfold after_task. simpl.
        destruct (run_viewports r) as [l|] eqn:Hl.
        -- destruct (task_viewport t') as [vp'|] eqn:Hvp'.
           ++ apply list_lookup_insert_eq.
              rewrite (Hwf l Hl). by apply lookup_lt_Some in Hi.
           ++ destruct (l !! j) eqn:Hlj; [|done].
              destruct Hslot as [_ Hslot].
              by destruct Hslot; eauto.
        -- destruct (task_viewport t') as [vp'|]; [|done].
           destruct Hslot as [Hslot _]. by destruct Hslot; eauto.
      * by rewrite effects_at_after_task, decide_True.
    + destruct (after_task_other i j t' r Hne) as (Hv1 & Hs1 & He1).
      destruct (IH _ Hrun) as (F' & t2 & HF' & Hview' & Hres);
        [by apply after_task_slots_match|done| |by rewrite Hv1|].
      { apply elem_of_cons in Hin as [?|?]; [done|done]. }
      exists F', t2. rewrite Hs1 in Hview'. rewrite He1 in Hres. done.
  - apply (IH _ Hrun); [done|done| |done].
    apply elem_of_cons in Hin as [->|?]; [congruence|done].
  - apply (IH _ Hrun); [done|done| |done].
    apply elem_of_cons in Hin as [->|?]; [congruence|done].
Qed.

(** Every call the loop adds is one that the options permit to the variant
    the type selects. *)
Lemma compute_views_permitted (fuel : nat) (type : FeatureType)
    (indices : list nat) (r r' : Run) (res : result unit) :
  compute_views opts fuel type indices r = (r', res) ->
  exists es,
    run_effects r' = run_effects r ++ es
    /\ Forall (fun p => exists F,
                 feature_of type = Some F /\ permitted opts F p.2) es.
Proof.
  revert r. induction indices as [|j rest IH]; intros r; simpl.
  - intros [= <- _]. exists []. by rewrite app_nil_r.
  - destruct (run_views r !! j) as [[view|]|] eqn:Hj; [|by apply IH..].
    destruct (compute_at opts fuel type j view r) as [r1 res1] eqn:Hat.
    assert (exists es,
      run_effects r1 = run_effects r ++ es
      /\ Forall (fun p => exists F,
                   feature_of type = Some F /\ permitted opts F p.2) es)
      as (es1 & He1 & Hp1).
    { destruct (compute_at_inv _ _ _ _ _ _ _ Hat)
        as [[-> _]|(F & t' & HF & Hview & ->)].
      { exists []. by rewrite app_nil_r. }
      destruct (compute_view_trace _ _ _ _ _ Hview) as (es & He & Hp & _).
      simpl in He. simpl. rewrite He. eexists. split; [done|].
      apply Forall_fmap. eapply Forall_impl; [exact Hp|].
      intros e He'. simpl. by exists F. }
    destruct res1; [|intros [= <- _]; by exists es1..].
    intros Hrun. destruct (IH _ Hrun) as (es2 & He2 & Hp2).
    exists (es1 ++ es2). rewrite He2, He1, <- app_assoc.
    split; [done|]. by apply Forall_app.
Qed.

(** Without a view that is not [NULL] the loop does nothing. *)
Lemma compute_views_absent (fuel : nat) (type : FeatureType)
    (indices : list nat) (r : Run) :
  (forall i v, run_views r !! i <> Some (Some v)) ->
  compute_views opts fuel type indices r = (r, Ok tt).
Proof.
  intros Habsent.
  induction indices as [|j rest IH]; simpl; [done|].
  destruct (run_views r !! j) as [[view|]|] eqn:Hj; [|by apply IH..].
  by destruct (Habsent j view).
Qed.

(** Without a cache-store name a task leaves its view as it is, whatever
    its outcome. *)
Lemma compute_view_keeps_view (fuel : nat) (F : FEATURE) (t t' : Task)
    (res : result unit) :
  string_empty (feature_embedding opts) = true ->
  compute_view opts fuel F t = (t', res) ->
  task_view t' = task_view t.
Proof.
  intros Hname Hrun. destruct (result_unit_cases res) as [->|Hres].
  - destruct (compute_view_Ok _ _ _ _ Hrun) as [[_ ->]|(_ & Hok)]; [done|].
    destruct Hok as (t1 & ds & t2 & found & _ & _ & Hview & _).
    simpl in Hview. rewrite Hview. unfold closing_view. by rewrite Hname.
  - destruct (compute_view_trace _ _ _ _ _ Hrun) as (es & _ & _ & Hfail).
    by destruct (Hfail Hres).
Qed.

Lemma compute_views_keeps_views (fuel : nat) (type : FeatureType)
    (indices : list nat) (r r' : Run) (res : result unit) :
  string_empty (feature_embedding opts) = true ->
  compute_views opts fuel type indices r = (r', res) ->
  run_views r' = run_views r.
Proof.
  intros Hname. revert r.
  induction indices as [|j rest IH]; intros r; simpl.
  - by intros [= <- _].
  - destruct (run_views r !! j) as [[view|]|] eqn:Hj; [|by apply IH..].
    destruct (compute_at opts fuel type j view r) as [r1 res1] eqn:Hat.
    assert (run_views r1 = run_views r) as Hv.
    { destruct (compute_at_inv _ _ _ _ _ _ _ Hat)
        as [[-> _]|(F & t' & _ & Hview & ->)]; [done|].
      simpl. rewrite (compute_view_keeps_view _ _ _ _ _ Hname Hview).
      simpl. by apply list_insert_id. }
    destruct res1; [|by intros [= <- _]..].
    intros Hrun. rewrite (IH _ Hrun). exact Hv.
Qed.

(** ** The whole call *)

(** A call on a scene either fails the check of line 15, before anything
    is touched, or is the loop run from the initial state. *)
Lemma compute_inv (fuel : nat) (scene : Scene) (type : FeatureType)
    (viewports : option (list Viewport)) (r : Run) (res : result unit) :
  compute opts fuel (Some scene) type viewports = (r, res) ->
  (viewports = None /\ string_empty (feature_embedding opts) = true
   /\ r = initial_run scene None /\ res <> Ok tt)
  \/ ((is_Some viewports \/ string_empty (feature_embedding opts) = false)
      /\ compute_views opts fuel type (schedule (length (get_views scene)))
           (initial_run scene viewports) = (r, res)).
Proof.
  unfold compute, initial_run.
  destruct viewports as [l|]; simpl.
  - intros Hrun. right. split; [left; eauto|done].
  - destruct (string_empty (feature_embedding opts)).
    + intros [= <- <-]. left. by repeat split.
    + intros Hrun. right. split; [by right|done].
Qed.

(** Every iteration is taken up, and once. *)
Lemma schedule_NoDup (n : nat) : NoDup (schedule n).
Proof. rewrite schedule_permutation. apply NoDup_seq. Qed.

Lemma schedule_elem (i n : nat) : (i < n)%nat -> i ∈ schedule n.
Proof. intros Hi. rewrite schedule_permutation. apply elem_of_seq. lia. Qed.

Lemma initial_run_slots_match (scene : Scene)
    (viewports : option (list Viewport)) :
  slots_match (initial_run scene viewports).
Proof.
  intros l. unfold initial_run. simpl. destruct viewports; [|done].
  intros [= <-]. apply length_replicate.
Qed.

(** X1: with an output list, [compute] ends, whatever the outcome, with as
    many views as the scene has and with exactly one slot per view, however
    long the list was before. *)
Theorem compute_sizes_output (fuel : nat) (scene : Scene)
    (type : FeatureType) (given : list Viewport) :
  let r := (compute opts fuel (Some scene) type (Some given)).1 in
  length (run_views r) = length (get_views scene)
  /\ exists l,
      run_viewports r = Some l /\ length l = length (get_views scene).
Proof.
  destruct (compute opts fuel (Some scene) type (Some given)) as [r res]
    eqn:Hrun. simpl.
  destruct (compute_inv _ _ _ _ _ _ Hrun) as [([=] & _)|[_ Hloop]].
  destruct (compute_views_lengths _ _ _ _ _ _ Hloop) as [Hv Hs].
  split; [exact Hv|]. simpl in Hs.
  destruct (run_viewports r) as [l|]; [|discriminate].
  exists l. split; [done|]. injection Hs as ->. apply length_replicate.
Qed.

(** X2: on a scene without a view that is not [NULL] (an empty scene
    included), [compute] returns normally for every variant, recognised or
    not: no call is made, and the output list is reset to default slots. *)
Theorem compute_without_present_view (fuel : nat) (scene : Scene)
    (type : FeatureType) (viewports : option (list Viewport)) :
  (forall i v, get_views scene !! i <> Some (Some v)) ->
  is_Some viewports \/ string_empty (feature_embedding opts) = false ->
  compute opts fuel (Some scene) type viewports
  = (initial_run scene viewports, Ok tt).
Proof.
  intros Habsent Hargs.
  destruct (compute opts fuel (Some scene) type viewports) as [r res]
    eqn:Hrun.
  destruct (compute_inv _ _ _ _ _ _ Hrun) as [(-> & Hname & _)|[_ Hloop]].
  { destruct Hargs as [[? [=]]|?]; congruence. }
  rewrite compute_views_absent in Hloop by done. by injection Hloop as <- <-.
Qed.

(** X3: a view that is [NULL] is passed over, whatever happens to the other
    views: it is still [NULL] afterwards, no call was made for it, and its
    slot, if there is an output list, is a default one. *)
Theorem absent_view_is_passed_over (fuel : nat) (scene : Scene)
    (type : FeatureType) (viewports : option (list Viewport)) (i : nat) :
  get_views scene !! i = Some None ->
  let r := (compute opts fuel (Some scene) type viewports).1 in
  run_views r !! i = Some None
  /\ effects_at i r = []
  /\ forall l, run_viewports r = Some l -> l !! i = Some Viewport_default.
Proof.
  intros Hi.
  destruct (compute opts fuel (Some scene) type viewports) as [r res]
    eqn:Hrun. simpl.
  assert (forall l, run_viewports (initial_run scene viewports) = Some l ->
                    l !! i = Some Viewport_default) as Hinit.
  { unfold initial_run. simpl. destruct viewports; [|done].
    intros l' [= <-]. apply lookup_replicate_2.
    by apply lookup_lt_Some in Hi. }
  destruct (compute_inv _ _ _ _ _ _ Hrun)
    as [(-> & _ & -> & _)|[_ Hloop]]; [done|].
  destruct (compute_views_frame _ _ i _ _ _ _ Hloop) as (Hv & Hs & He);
    [by right|].
  split; [by rewrite Hv|]. split; [by rewrite He|].
  intros l Hl. unfold slot_of in Hs. rewrite Hl in Hs. rewrite Hs.
  destruct (run_viewports (initial_run scene viewports)) as [l0|] eqn:Hl0.
  - by apply Hinit.
  - destruct (compute_views_lengths _ _ _ _ _ _ Hloop) as [_ Hlen].
    rewrite Hl, Hl0 in Hlen. discriminate.
Qed.

(** X4: when [compute] returns normally, what it leaves for a view that is
    not [NULL] is what the task of that view leaves when run on the view as
    it was, from a default slot (or none) and on its own: the view, the
    slot at the same index, and the calls made for it. *)
Theorem compute_runs_each_view_task (fuel : nat) (scene : Scene)
    (type : FeatureType) (viewports : option (list Viewport)) (r : Run)
    (i : nat) (v : View) :
  compute opts fuel (Some scene) type viewports = (r, Ok tt) ->
  get_views scene !! i = Some (Some v) ->
  exists F t',
    feature_of type = Some F
    /\ compute_view opts fuel F
         {| task_view := v;
            task_viewport := (fun _ => Viewport_default) <$> viewports;
            task_effects := [] |} = (t', Ok tt)
    /\ run_views r !! i = Some (Some (task_view t'))
    /\ slot_of r i = task_viewport t'
    /\ effects_at i r = task_effects t'.
Proof.
  intros Hrun Hi.
  destruct (compute_inv _ _ _ _ _ _ Hrun) as [(_ & _ & _ & ?)|[_ Hloop]];
    [done|].
  destruct (compute_views_at _ _ i v _ _ _ Hloop)
    as (F & t' & HF & Hview & Hres).
  - apply initial_run_slots_match.
  - apply schedule_NoDup.
  - apply schedule_elem. by apply lookup_lt_Some in Hi.
  - done.
  - exists F, t'. split; [done|]. split; [|done].
    replace ((fun _ => Viewport_default) <$> viewports)
      with (slot_of (initial_run scene viewports) i); [done|].
    unfold slot_of, initial_run. simpl. destruct viewports; [|done].
    simpl. apply lookup_replicate_2. by apply lookup_lt_Some in Hi.
Qed.

(** X5: every call made during [compute], whatever its outcome, is one the
    options permit to the selected variant: the cache entry is read only
    under the cache-store name and only when recomputation is not forced,
    only the configured source image is fetched, only the detector of the
    variant is run, the cache entry is written only under a cache-store
    name, and a view is saved only when saving is not switched off. *)
Theorem compute_calls_are_permitted (fuel : nat) (scene : option Scene)
    (type : FeatureType) (viewports : option (list Viewport)) :
  Forall (fun p => exists F, feature_of type = Some F
                             /\ permitted opts F p.2)
    (run_effects (compute opts fuel scene type viewports).1).
Proof.
  destruct scene as [scene|]; [|by constructor].
  destruct (compute opts fuel (Some scene) type viewports) as [r res]
    eqn:Hrun. simpl.
  destruct (compute_inv _ _ _ _ _ _ Hrun)
    as [(_ & _ & -> & _)|[_ Hloop]]; [by constructor|].
  by destruct (compute_views_permitted _ _ _ _ _ _ Hloop) as (es & -> & ?).
Qed.

(** X6: without a cache-store name [compute] leaves every view of the
    scene as it was, whatever its outcome. *)
Theorem compute_without_cache_store_keeps_scene (fuel : nat)
    (scene : Scene) (type : FeatureType)
    (viewports : option (list Viewport)) :
  string_empty (feature_embedding opts) = true ->
  run_views (compute opts fuel (Some scene) type viewports).1
  = get_views scene.
Proof.
  intros Hname.
  destruct (compute opts fuel (Some scene) type viewports) as [r res]
    eqn:Hrun. simpl.
  destruct (compute_inv _ _ _ _ _ _ Hrun)
    as [(_ & _ & -> & _)|[_ Hloop]]; [done|].
  by rewrite (compute_views_keeps_views _ _ _ _ _ _ Hname Hloop).
Qed.

(** ** The rescaling loops, further *)

Lemma budget_iter_snd (k : nat) (s : bool * ByteImage) :
  snd (Nat.iter k (fun s : bool * ByteImage => (true, rescale_half_size s.2))
         s)
  = Nat.iter k rescale_half_size (snd s).
Proof. induction k as [|k IH]; simpl; [done|]. by rewrite IH. Qed.

(** Halving keeps dimensions non-negative and never enlarges them. *)
Lemma iter_half_dims (img : ByteImage) (k m : nat) :
  0 <= image_width img -> 0 <= image_height img ->
  (k <= m)%nat ->
  0 <= image_width (Nat.iter m rescale_half_size img)
    <= image_width (Nat.iter k rescale_half_size img)
  /\ 0 <= image_height (Nat.iter m rescale_half_size img)
       <= image_height (Nat.iter k rescale_half_size img).
Proof.
  intros Hw Hh Hkm.
  assert (Hpos : forall n,
    0 <= image_width (Nat.iter n rescale_half_size img)
    /\ 0 <= image_height (Nat.iter n rescale_half_size img)).
  { induction n as [|n [IHw IHh]]; simpl; [done|].
    split; by apply half_nonneg. }
  induction Hkm as [|m Hkm IH]; [destruct (Hpos k); lia|].
  destruct (Hpos m) as [Hwm Hhm]. destruct (Hpos (S m)) as [Hws Hhs].
  simpl in *.
  assert (image_width (Nat.iter m rescale_half_size img) / 2
          <= image_width (Nat.iter m rescale_half_size img))
    by (apply Z.div_le_upper_bound; lia).
  assert (image_height (Nat.iter m rescale_half_size img) / 2
          <= image_height (Nat.iter m rescale_half_size img))
    by (apply Z.div_le_upper_bound; lia).
  lia.
Qed.

(** X7: an image that has one dimension at or below the target is not
    halved at all: it is returned as it is when it has exactly the target
    dimensions, and rejected otherwise.  In particular an image smaller
    than the cached resolution is never enlarged. *)
Theorem rescale_to_match_without_halving (fuel : nat) (img : ByteImage)
    (targetW targetH : Z) :
  image_width img <= targetW \/ image_height img <= targetH ->
  rescale_to_match fuel img targetW targetH
  = if (image_width img =? targetW) && (image_height img =? targetH)
    then Ok img
    else Throw (runtime_error "Error rescaling image to match descriptors").
Proof.
  intros Hsmall. unfold rescale_to_match.
  assert ((image_width img >? targetW) && (image_height img >? targetH)
          = false) as Hcond.
  { apply andb_false_iff. rewrite !Z.gtb_ltb, !Z.ltb_ge. tauto. }
  destruct fuel; simpl; rewrite Hcond;
    by destruct (image_width img =? targetW),
                (image_height img =? targetH).
Qed.


(** The matching loop follows the budget loop step for step and stops
    where it stopped. *)
Lemma budget_then_match (fuel : nat) (img img' : ByteImage)
    (maxPixels : Z) (was_scaled : bool) :
  0 <= image_width img -> 0 <= image_height img -> 0 <= maxPixels ->
  rescale_to_budget fuel img maxPixels = Some (was_scaled, img') ->
  rescale_to_match fuel img (image_width img') (image_height img') = Ok img'.
Proof.
  intros Hw Hh Hmax Hrun. unfold rescale_to_budget in Hrun.
  destruct (while_Some _ _ _ _ _ Hrun) as (n & Hn & Hiter & _ & Hbefore).
  assert (img' = Nat.iter n rescale_half_size img) as Himg'.
  { pose proof (budget_iter_snd n (false, img)) as Hsnd.
    by rewrite <- Hiter in Hsnd. }
  unfold rescale_to_match.
  rewrite (while_iter _ _ n); [| exact Hn | |].
  - rewrite <- Himg', !Z.eqb_refl. done.
  - intros k Hk. specialize (Hbefore k Hk). simpl in Hbefore.
    rewrite budget_iter_snd in Hbefore. simpl in Hbefore.
    apply Z.gtb_lt in Hbefore.
    destruct (iter_half_dims img 0 k Hw Hh) as [Hwk Hhk]; [lia|].
    destruct (iter_half_dims img (S k) n Hw Hh) as [Hwn Hhn]; [lia|].
    simpl in Hwn, Hhn. rewrite Himg'.
    set (wk := image_width (Nat.iter k rescale_half_size img)) in *.
    set (hk := image_height (Nat.iter k rescale_half_size img)) in *.
    assert (wk * hk <> 0) as Hprod.
    { intros Hzero. unfold int_mul in Hbefore. rewrite Hzero in Hbefore.
      replace (wrap_int 0) with 0 in Hbefore by reflexivity. lia. }
    assert (0 < wk) by nia. assert (0 < hk) by nia.
    pose proof (half_lt wk). pose proof (half_lt hk).
    apply andb_true_iff. split; apply Z.gtb_lt; lia.
  - rewrite <- Himg'. apply andb_false_iff. left.
    rewrite Z.gtb_ltb. apply Z.ltb_irrefl.
Qed.

(** X9: the resolution the budget loop ends at can be reached again by the
    matching loop: from the same source image, with the dimensions of the
    budgeted image as target, the matching loop returns that image.  So
    descriptors cached by one call can be loaded by the next. *)
Theorem budget_resolution_is_matched (fuel : nat) (img img' : ByteImage)
    (maxPixels : Z) (was_scaled : bool) :
  0 <= image_width img -> 0 <= image_height img -> 0 <= maxPixels ->
  rescale_to_budget fuel img maxPixels = Some (was_scaled, img') ->
  rescale_to_match fuel img (image_width img') (image_height img') = Ok img'.
Proof.
  intros Hw Hh Hmax Hrun. by eapply budget_then_match.
Qed.

(** ** The output slot, further *)

Lemma lookup_concat_uniform {A : Type} (len : nat) (ls : list (list A))
    (i j : nat) (l : list A) :
  Forall (fun l => length l = len) ls ->
  ls !! i = Some l -> (j < len)%nat ->
  concat ls !! (i * len + j)%nat = l !! j.
Proof.
  intros Hlen. revert i. induction Hlen as [|l0 ls Hl0 Hls IH]; intros i.
  - done.
  - destruct i as [|i]; simpl.
    + intros [= ->] Hj. apply lookup_app_l. lia.
    + intros Hi Hj. rewrite lookup_app_r by lia.
      replace (len + i * len + j - length l0)%nat with (i * len + j)%nat
        by lia.
      by apply IH.
Qed.

Lemma length_concat_uniform {A : Type} (len : nat) (ls : list (list A)) :
  Forall (fun l => length l = len) ls ->
  length (concat ls) = (length ls * len)%nat.
Proof.
  induction 1 as [|l0 ls Hl0 Hls IH]; simpl; [done|].
  rewrite length_app. lia.
Qed.

Lemma descriptor_length_pos (F : FEATURE) : (0 < descriptor_length F)%nat.
Proof. destruct F; simpl; lia. Qed.

(** The positions and colours of a filled slot, and its resolution. *)
Lemma initialize_viewport_fields (F : FEATURE) (descriptors : Descriptors)
    (img : ByteImage) (vp : Viewport) :
  let vp' := initialize_viewport F descriptors img vp in
  width vp' = width vp /\ height vp' = height vp
  /\ positions vp' = (fun d => (x d, y d)) <$> descriptors
  /\ colors vp' = (fun d => linear_at img (x d) (y d)) <$> descriptors
  /\ length (descr_data vp')
     = (length descriptors * descriptor_length F)%nat.
Proof.
  simpl. unfold initialize_viewport.
  set (n := length descriptors).
  set (vp0 := {| width := width vp; height := height vp;
                 positions := resize n inhabitant (positions vp);
                 colors := resize n inhabitant (colors vp);
                 descr_data :=
                   replicate (n * descriptor_length F) inhabitant |}).
  assert (Hp0 : length (positions vp0) = n) by apply length_resize.
  assert (Hc0 : length (colors vp0) = n) by apply length_resize.
  assert (Hd0 : length (descr_data vp0) = (n * descriptor_length F)%nat)
    by apply length_replicate.
  destruct (fill_viewport_shape (descriptor_length F) img descriptors
              0 0 vp0) as (Hw & Hh & Hp & Hc & Hd).
  rewrite Hp0 in Hp. rewrite Hc0 in Hc. rewrite Hd0 in Hd.
  split; [exact Hw|]. split; [exact Hh|].
  assert (Hat : forall i d, descriptors !! i = Some d ->
    positions (fill_viewport (descriptor_length F) img descriptors 0 0 vp0)
      !! i = Some (x d, y d)
    /\ colors (fill_viewport (descriptor_length F) img descriptors 0 0 vp0)
         !! i = Some (linear_at img (x d) (y d))).
  { intros i d Hi.
    assert (i < n)%nat by (by apply lookup_lt_Some in Hi).
    destruct (fill_viewport_at (descriptor_length F) img descriptors
                0 0 vp0 i d Hi) as (Hpos & Hcol & _).
    rewrite Hp0 in Hpos. rewrite Hc0 in Hcol.
    split; [by apply Hpos|by apply Hcol]. }
  split; [|split; [|exact Hd]]; unfold Descriptors in *.
  - apply list_eq. intros i. rewrite list_lookup_fmap.
    destruct (descriptors !! i) as [d|] eqn:Hi.
    + destruct (Hat i d Hi) as [Hpos _]. by rewrite Hpos.
    + apply lookup_ge_None_2. apply lookup_ge_None_1 in Hi. fold n in Hi.
      rewrite Hp. exact Hi.
  - apply list_eq. intros i. rewrite list_lookup_fmap.
    destruct (descriptors !! i) as [d|] eqn:Hi.
    + destruct (Hat i d Hi) as [_ Hcol]. by rewrite Hcol.
    + apply lookup_ge_None_2. apply lookup_ge_None_1 in Hi. fold n in Hi.
      rewrite Hc. exact Hi.
Qed.

(** X10: filling a slot overwrites whatever it held: its positions are
    those of the descriptors, in order, its colours the samples of the
    image at these positions, and, when every descriptor vector has the
    length of the variant, its buffer is the vectors one after the other.
    Only the resolution of the slot is kept. *)
Theorem initialize_viewport_contents (F : FEATURE)
    (descriptors : Descriptors) (img : ByteImage) (vp : Viewport) :
  Forall (fun d => length (data d) = descriptor_length F) descriptors ->
  initialize_viewport F descriptors img vp
  = {| width := width vp;
       height := height vp;
       positions := (fun d => (x d, y d)) <$> descriptors;
       colors := (fun d => linear_at img (x d) (y d)) <$> descriptors;
       descr_data := concat (data <$> descriptors) |}.
Proof.
  intros Hlen.
  destruct (initialize_viewport_fields F descriptors img vp)
    as (Hw & Hh & Hp & Hc & Hd).
  assert (Hlen' : Forall (fun l : list float => length l = descriptor_length F)
                    (data <$> descriptors)).
  { apply Forall_fmap. exact Hlen. }
  assert (descr_data (initialize_viewport F descriptors img vp)
          = concat (data <$> descriptors)) as Hdata.
  { apply list_eq. intros k.
    pose proof (descriptor_length_pos F) as Hpos.
    destruct (decide (k < length descriptors * descriptor_length F)%nat)
      as [Hk|Hk].
    - set (len := descriptor_length F) in *.
      assert (k = (k / len) * len + k mod len)%nat as Hdiv.
      { rewrite (Nat.div_mod k len) at 1 by lia. lia. }
      assert (k mod len < len)%nat as Hj by (apply Nat.mod_upper_bound; lia).
      assert (k / len < length descriptors)%nat as Hi.
      { apply Nat.Div0.div_lt_upper_bound. lia. }
      destruct (lookup_lt_is_Some_2 descriptors (k / len) Hi) as [d Hd'].
      assert (length (data d) = len) as Hld.
      { rewrite Forall_forall in Hlen. apply Hlen.
        by eapply list_elem_of_lookup_2. }
      destruct (lookup_lt_is_Some_2 (data d) (k mod len)) as [v Hv]; [lia|].
      rewrite Hdiv.
      rewrite (lookup_concat_uniform len _ _ _ (data d) Hlen');
        [|by rewrite list_lookup_fmap, Hd'|done].
      rewrite Hv. unfold initialize_viewport.
      match goal with
      | |- descr_data (fill_viewport _ _ _ _ _ ?vp0) !! _ = _ =>
          destruct (fill_viewport_at len img descriptors 0 0 vp0
                      (k / len) d Hd') as (_ & _ & Hdat)
      end.
      apply (Hdat (k mod len)%nat v Hj Hv).
      simpl. rewrite length_replicate. fold len. nia.
    - rewrite lookup_ge_None_2 by lia. symmetry. apply lookup_ge_None_2.
      rewrite length_concat_uniform with (len := descriptor_length F)
        by done.
      rewrite length_fmap. lia. }
  destruct (initialize_viewport F descriptors img vp) as [w h ps cs dd].
  simpl in *. by subst.
Qed.

(** ** The two paths of a task *)

(** Lines 86-98 on a view with a cache entry that decodes, when there is
    an output slot and recomputation is not forced. *)
Lemma load_descriptors_decoded (t : Task) (blob : Blob) (ds : Descriptors)
    (w h : Z) (vp : Viewport) :
  force_recompute opts = false ->
  view_data (task_view t) !! feature_embedding opts = Some blob ->
  embedding_to_descriptors blob = inr (ds, w, h) ->
  task_viewport t = Some vp ->
  load_descriptors opts t
  = ({| task_view := task_view t;
        task_viewport := Some (with_resolution vp w h);
        task_effects := task_effects t ++ [GetData (feature_embedding opts)]
     |}, Ok (Some ds)).
Proof.
  intros Hforce Hblob Hdec Hvp. unfold_task. simpl.
  rewrite Hforce. simpl.
  rewrite bool_decide_eq_true_2 by (rewrite Hblob; eauto).
  rewrite Hvp. simpl. rewrite Hblob. simpl. by rewrite Hdec.
Qed.

(** Lines 105-129, the compute path, when they succeed. *)
Lemma obtain_image_computed (fuel : nat) (F : FEATURE) (t t' : Task)
    (found : Descriptors * ByteImage) :
  obtain_image opts fuel F [] t = (t', Ok found) ->
  exists img was_scaled,
    view_images (task_view t) !! image_embedding opts = Some img
    /\ rescale_to_budget fuel img (max_image_size opts)
       = Some (was_scaled, found.2)
    /\ run_feature F found.2 = inr found.1
    /\ t' = with_effect
              (with_effect t (GetByteImage (image_embedding opts)))
              (RunFeature F found.2).
Proof.
  unfold_task. simpl.
  destruct (view_images (task_view t) !! image_embedding opts) as [img|];
    [|discriminate]. simpl.
  destruct (rescale_to_budget fuel img (max_image_size opts))
    as [[scaled img']|] eqn:Hbudget; [|discriminate]. simpl.
  destruct (run_feature F img') as [e|computed] eqn:Hrun; [discriminate|].
  simpl. intros [= <- <-]. by exists img, scaled.
Qed.

(** Lines 105-139, the load path, when its image can be matched. *)
Lemma obtain_image_matched (fuel : nat) (F : FEATURE) (t : Task)
    (d : Descriptor) (ds : Descriptors) (img img' : ByteImage)
    (vp : Viewport) :
  view_images (task_view t) !! image_embedding opts = Some img ->
  task_viewport t = Some vp ->
  rescale_to_match fuel img (width vp) (height vp) = Ok img' ->
  obtain_image opts fuel F (d :: ds) t
  = (with_effect t (GetByteImage (image_embedding opts)),
     Ok (d :: ds, img')).
Proof.
  intros Himg Hvp Hmatch. unfold_task. simpl.
  unfold with_effect. rewrite Himg. simpl. rewrite Hvp, Hmatch. reflexivity.
Qed.

Lemma obtain_image_matched_inv (fuel : nat) (F : FEATURE) (t t' : Task)
    (d : Descriptor) (ds : Descriptors)
    (found : Descriptors * ByteImage) :
  obtain_image opts fuel F (d :: ds) t = (t', Ok found) ->
  exists img vp,
    view_images (task_view t) !! image_embedding opts = Some img
    /\ task_viewport t = Some vp
    /\ rescale_to_match fuel img (width vp) (height vp) = Ok found.2
    /\ found.1 = d :: ds
    /\ t' = with_effect t (GetByteImage (image_embedding opts)).
Proof.
  unfold_task. simpl.
  destruct (view_images (task_view t) !! image_embedding opts) as [img|];
    [|discriminate]. simpl.
  destruct (task_viewport t) as [vp|] eqn:Hvp; [|discriminate].
  destruct (rescale_to_match fuel img (width vp) (height vp)) as [img'| | | |]
    eqn:Hmatch; try discriminate.
  intros [= <- <-]. exists img, vp. unfold with_effect. rewrite Hvp.
  by repeat split.
Qed.

(** How a task that gets through lines 86-139 ends (lines 141-169). *)
Lemma compute_view_compose (fuel : nat) (F : FEATURE) (t t1 t2 : Task)
    (ds : Descriptors) (found : Descriptors * ByteImage) :
  load_descriptors opts t = (t1, Ok (Some ds)) ->
  obtain_image opts fuel F ds t1 = (t2, Ok found) ->
  let blob :=
    descriptors_to_embedding found.1
      (image_width found.2) (image_height found.2) in
  compute_view opts fuel F t
  = ({| task_view := closing_view opts blob (task_view t2);
        task_viewport :=
          initialize_viewport F found.1 found.2 <$> task_viewport t2;
        task_effects := task_effects t2 ++ closing_effects opts blob |},
     Ok tt).
Proof.
  intros Hload Himg. simpl.
  unfold compute_view, bind at 1. rewrite Hload.
  unfold bind at 1. rewrite Himg.
  unfold closing_view, closing_effects. unfold_task. simpl.
  destruct (string_empty (feature_embedding opts)); simpl;
    [|destruct (skip_saving_views opts); simpl];
    destruct t2 as [v2 [vp2|] es2]; simpl; rewrite <- ?app_assoc; done.
Qed.

Lemma rescale_to_match_Ok (fuel : nat) (img img' : ByteImage)
    (targetW targetH : Z) :
  rescale_to_match fuel img targetW targetH = Ok img' ->
  image_width img' = targetW /\ image_height img' = targetH.
Proof.
  unfold rescale_to_match.
  destruct (while _ _ _ _) as [r|]; [|discriminate].
  destruct (negb (image_width r =? targetW)
            || negb (image_height r =? targetH)) eqn:Hne; [discriminate|].
  intros [= <-]. apply orb_false_elim in Hne as [H1 H2].
  apply negb_false_iff, Z.eqb_eq in H1.
  apply negb_false_iff, Z.eqb_eq in H2. done.
Qed.

(** X11: the compute path.  A task on a view without a cache entry, or
    under forced recomputation, that returns normally has fetched the
    source image, halved it to the budget, run the detector of the variant
    on the result, stored the encoding of the descriptors and of the
    dimensions of that image under the cache-store name (if there is one),
    filled the output slot (if there is one) from them, and cleaned up; it
    has made no other call. *)
Theorem fresh_view_is_computed (fuel : nat) (F : FEATURE) (t t' : Task) :
  force_recompute opts = true
  \/ view_data (task_view t) !! feature_embedding opts = None ->
  compute_view opts fuel F t = (t', Ok tt) ->
  exists img was_scaled found,
    view_images (task_view t) !! image_embedding opts = Some img
    /\ rescale_to_budget fuel img (max_image_size opts)
       = Some (was_scaled, found.2)
    /\ run_feature F found.2 = inr found.1
    /\ let blob :=
         descriptors_to_embedding found.1
           (image_width found.2) (image_height found.2) in
       t' = {| task_view := closing_view opts blob (task_view t);
               task_viewport :=
                 initialize_viewport F found.1 found.2 <$> task_viewport t;
               task_effects :=
                 task_effects t
                 ++ [GetByteImage (image_embedding opts);
                     RunFeature F found.2]
                 ++ closing_effects opts blob |}.
Proof.
  intros Hpath Hrun.
  pose proof (load_descriptors_none t Hpath) as Hload.
  destruct (compute_view_Ok _ _ _ _ Hrun) as [[(Hf & Hd & _) _]|(_ & Hok)].
  { destruct Hpath as [?|Hnone]; [congruence|].
    rewrite Hnone in Hd. by destruct Hd. }
  destruct Hok as (t1 & ds & t2 & found & Hload' & Himg & _).
  rewrite Hload in Hload'. injection Hload' as <- <-.
  rewrite (compute_view_compose _ _ _ _ _ _ _ Hload Himg) in Hrun.
  injection Hrun as <-.
  destruct (obtain_image_computed _ _ _ _ _ Himg)
    as (img & scaled & Hlook & Hbudget & Hfeat & ->).
  exists img, scaled, found. split; [done|]. split; [done|].
  split; [done|]. simpl. by rewrite <- !app_assoc.
Qed.

(** X12: the load path.  A task on a view whose cache entry decodes to
    descriptors (at least one), with an output slot and without forced
    recomputation, that returns normally has read the cache entry, fetched
    the source image and halved it to exactly the cached resolution; it has
    not run the detector.  The slot holds the cached resolution and is
    filled from the cached descriptors and that image, and the same
    descriptors and resolution are stored again. *)
Theorem cached_view_is_loaded (fuel : nat) (F : FEATURE) (t t' : Task)
    (blob : Blob) (d : Descriptor) (ds : Descriptors) (w h : Z)
    (vp : Viewport) :
  force_recompute opts = false ->
  view_data (task_view t) !! feature_embedding opts = Some blob ->
  embedding_to_descriptors blob = inr (d :: ds, w, h) ->
  task_viewport t = Some vp ->
  compute_view opts fuel F t = (t', Ok tt) ->
  exists img img',
    view_images (task_view t) !! image_embedding opts = Some img
    /\ rescale_to_match fuel img w h = Ok img'
    /\ image_width img' = w /\ image_height img' = h
    /\ let stored := descriptors_to_embedding (d :: ds) w h in
       t' = {| task_view := closing_view opts stored (task_view t);
               task_viewport :=
                 Some (initialize_viewport F (d :: ds) img'
                         (with_resolution vp w h));
               task_effects :=
                 task_effects t
                 ++ [GetData (feature_embedding opts);
                     GetByteImage (image_embedding opts)]
                 ++ closing_effects opts stored |}.
Proof.
  intros Hforce Hblob Hdec Hvp Hrun.
  pose proof (load_descriptors_decoded _ _ _ _ _ _ Hforce Hblob Hdec Hvp)
    as Hload.
  destruct (compute_view_Ok _ _ _ _ Hrun) as [[(_ & _ & Hnone) _]|(_ & Hok)];
    [congruence|].
  destruct Hok as (t1 & ds' & t2 & found & Hload' & Himg & _).
  rewrite Hload in Hload'. injection Hload' as <- <-.
  rewrite (compute_view_compose _ _ _ _ _ _ _ Hload Himg) in Hrun.
  injection Hrun as <-.
  destruct (obtain_image_matched_inv _ _ _ _ _ _ _ Himg)
    as (img & vp1 & Hlook & Hvp1 & Hmatch & Hds & ->).
  simpl in Hlook, Hvp1. injection Hvp1 as <-. simpl in Hmatch.
  destruct (rescale_to_match_Ok _ _ _ _ _ Hmatch) as [Hw Hh].
  exists img, found.2. split; [done|]. split; [done|].
  split; [done|]. split; [done|].
  simpl. rewrite Hds, Hw, Hh. by rewrite <- !app_assoc.
Qed.

(** X13: a cache entry that decodes to no descriptor at all does not count
    as a cache hit: the task goes on to the compute path (line 106) and
    runs the detector on the budgeted source image.  The output slot then
    holds the resolution decoded from the cache entry together with the
    features computed on that image. *)
Theorem empty_cache_entry_is_recomputed (fuel : nat) (F : FEATURE)
    (t t' : Task) (blob : Blob) (w h : Z) (vp : Viewport) :
  force_recompute opts = false ->
  view_data (task_view t) !! feature_embedding opts = Some blob ->
  embedding_to_descriptors blob = inr ([], w, h) ->
  task_viewport t = Some vp ->
  compute_view opts fuel F t = (t', Ok tt) ->
  exists img was_scaled found,
    view_images (task_view t) !! image_embedding opts = Some img
    /\ rescale_to_budget fuel img (max_image_size opts)
       = Some (was_scaled, found.2)
    /\ run_feature F found.2 = inr found.1
    /\ let stored :=
         descriptors_to_embedding found.1
           (image_width found.2) (image_height found.2) in
       t' = {| task_view := closing_view opts stored (task_view t);
               task_viewport :=
                 Some (initialize_viewport F found.1 found.2
                         (with_resolution vp w h));
               task_effects :=
                 task_effects t
                 ++ [GetData (feature_embedding opts);
                     GetByteImage (image_embedding opts);
                     RunFeature F found.2]
                 ++ closing_effects opts stored |}.
Proof.
  intros Hforce Hblob Hdec Hvp Hrun.
  pose proof (load_descriptors_decoded _ _ _ _ _ _ Hforce Hblob Hdec Hvp)
    as Hload.
  destruct (compute_view_Ok _ _ _ _ Hrun) as [[(_ & _ & Hnone) _]|(_ & Hok)];
    [congruence|].
  destruct Hok as (t1 & ds' & t2 & found & Hload' & Himg & _).
  rewrite Hload in Hload'. injection Hload' as <- <-.
  rewrite (compute_view_compose _ _ _ _ _ _ _ Hload Himg) in Hrun.
  injection Hrun as <-.
  destruct (obtain_image_computed _ _ _ _ _ Himg)
    as (img & scaled & Hlook & Hbudget & Hfeat & ->).
  exists img, scaled, found. split; [done|]. split; [done|].
  split; [done|]. simpl. by rewrite <- !app_assoc.
Qed.

(** X14: a failure in lines 86-139 (an exception of the decoder, a missing
    cache blob or source image, a loop that does not end, an exception of
    the detector, the resolution mismatch) is the outcome of the task, and
    the task has only read by then: the view is as it was, nothing was
    written back or saved, and the clean-up was not called. *)
Theorem failure_precedes_write_back (fuel : nat) (F : FEATURE) (t t' : Task)
    (res : result unit) :
  (exists r, load_descriptors opts t = (t', r) /\ failure_of r = Some res)
  \/ (exists t1 ds r,
        load_descriptors opts t = (t1, Ok (Some ds))
        /\ obtain_image opts fuel F ds t1 = (t', r)
        /\ failure_of r = Some res) ->
  compute_view opts fuel F t = (t', res)
  /\ task_view t' = task_view t
  /\ exists es, task_effects t' = task_effects t ++ es /\ Forall reads es.
Proof.
  intros [(r & Hload & Hfail)|(t1 & ds & r & Hload & Himg & Hfail)].
  - destruct (load_descriptors_frame _ _ _ Hload) as (Hview & Heff & _).
    split; [|by split].
    unfold compute_view, bind at 1. rewrite Hload.
    destruct r; simpl in Hfail; by simplify_eq.
  - destruct (load_descriptors_frame _ _ _ Hload)
      as (Hv1 & (es1 & He1 & Hr1) & _).
    destruct (obtain_image_frame _ _ _ _ _ _ Himg)
      as (Hv2 & _ & (es2 & He2 & Hr2)).
    split; [|split].
    + unfold compute_view, bind at 1. rewrite Hload.
      unfold bind at 1. rewrite Himg.
      destruct r; simpl in Hfail; by simplify_eq.
    + congruence.
    + exists (es1 ++ es2). rewrite He2, He1, <- app_assoc.
      split; [done|]. by apply Forall_app.
Qed.

(** ** A second call on the same view *)

Lemma fill_viewport_descr_data (descr_len : nat) (img img' : ByteImage)
    (ds : Descriptors) (i i' ptr : nat) (vp vp' : Viewport) :
  descr_data vp = descr_data vp' ->
  descr_data (fill_viewport descr_len img ds i ptr vp)
  = descr_data (fill_viewport descr_len img' ds i' ptr vp').
Proof.
  revert i i' ptr vp vp'.
  induction ds as [|d ds IH]; intros i i' ptr vp vp' Heq; simpl; [done|].
  apply IH. simpl. by rewrite Heq.
Qed.

(** What fills a slot does not depend on what the slot held. *)
Lemma initialize_viewport_same (F : FEATURE) (ds : Descriptors)
    (img : ByteImage) (vp vp' : Viewport) :
  positions (initialize_viewport F ds img vp)
  = positions (initialize_viewport F ds img vp')
  /\ colors (initialize_viewport F ds img vp)
     = colors (initialize_viewport F ds img vp')
  /\ descr_data (initialize_viewport F ds img vp)
     = descr_data (initialize_viewport F ds img vp').
Proof.
  destruct (initialize_viewport_fields F ds img vp) as (_ & _ & -> & -> & _).
  destruct (initialize_viewport_fields F ds img vp') as (_ & _ & -> & -> & _).
  split; [done|]. split; [done|].
  unfold initialize_viewport. by apply fill_viewport_descr_data.
Qed.

(** X15: what one call caches, the next call loads.  Let a task compute
    the features of a view that had no cache entry and write them back, and
    let the codec decode what it encoded.  If at least one descriptor was
    found, a second task on the view as the first left it, with an output
    slot, returns normally on the load path: it does not run the detector,
    the resolution check passes, the view is left as it was, and the slot
    receives the same positions, colours and descriptor buffer as a slot
    of the first task, now with the resolution of the image the detector
    ran on. *)
Theorem cached_features_are_reused (fuel : nat) (F : FEATURE) (t t' : Task)
    (vp2 : Viewport) :
  (forall ds w h,
     embedding_to_descriptors (descriptors_to_embedding ds w h)
     = inr (ds, w, h)) ->
  string_empty (feature_embedding opts) = false ->
  force_recompute opts = false ->
  view_data (task_view t) !! feature_embedding opts = None ->
  0 <= max_image_size opts ->
  (forall img,
     view_images (task_view t) !! image_embedding opts = Some img ->
     0 <= image_width img /\ 0 <= image_height img) ->
  compute_view opts fuel F t = (t', Ok tt) ->
  exists found,
    run_feature F found.2 = inr found.1
    /\ task_viewport t'
       = initialize_viewport F found.1 found.2 <$> task_viewport t
    /\ (found.1 <> [] ->
        exists vp2',
          compute_view opts fuel F
            {| task_view := task_view t'; task_viewport := Some vp2;
               task_effects := [] |}
          = ({| task_view := task_view t';
                task_viewport := Some vp2';
                task_effects :=
                  [GetData (feature_embedding opts);
                   GetByteImage (image_embedding opts)]
                  ++ closing_effects opts
                       (descriptors_to_embedding found.1
                          (image_width found.2) (image_height found.2)) |},
             Ok tt)
          /\ width vp2' = image_width found.2
          /\ height vp2' = image_height found.2
          /\ forall vp1, task_viewport t' = Some vp1 ->
               positions vp2' = positions vp1
               /\ colors vp2' = colors vp1
               /\ descr_data vp2' = descr_data vp1).
Proof.
  intros Hcodec Hname Hforce Hnone Hmax Hdims Hrun.
  pose proof (load_descriptors_none t (or_intror Hnone)) as Hload.
  destruct (compute_view_Ok _ _ _ _ Hrun) as [[(_ & Hd & _) _]|(_ & Hok)].
  { rewrite Hnone in Hd. by destruct Hd. }
  destruct Hok as (t1 & ds0 & t2 & found & Hload' & Himg & Hfirst).
  rewrite Hload in Hload'. injection Hload' as <- <-.
  destruct (obtain_image_computed _ _ _ _ _ Himg)
    as (img & scaled & Hlook & Hbudget & Hfeat & ->).
  simpl in Hfirst. destruct Hfirst as (Hview & Hslot & _).
  exists found. split; [done|]. split; [done|].
  intros Hfound.
  destruct (found.1) as [|d ds] eqn:Hds; [done|]. clear Hfound.
  set (w := image_width found.2) in *.
  set (h := image_height found.2) in *.
  set (blob := descriptors_to_embedding (d :: ds) w h) in *.
  set (t0 := {| task_view := task_view t'; task_viewport := Some vp2;
                task_effects := [] |}).
  assert (Hdata' : view_data (task_view t0) !! feature_embedding opts
                   = Some blob).
  { simpl. rewrite Hview. unfold closing_view. rewrite Hname. simpl.
    apply lookup_insert_eq. }
  assert (Himages : view_images (task_view t0) = view_images (task_view t)).
  { simpl. rewrite Hview. unfold closing_view. by rewrite Hname. }
  pose proof (load_descriptors_decoded t0 blob (d :: ds) w h vp2 Hforce
                Hdata' (Hcodec _ _ _) eq_refl) as Hload2.
  destruct (Hdims img Hlook) as [Hw0 Hh0].
  pose proof (budget_then_match _ _ _ _ _ Hw0 Hh0 Hmax Hbudget) as Hmatch.
  fold w h in Hmatch.
  set (t1 := {| task_view := task_view t0;
                task_viewport := Some (with_resolution vp2 w h);
                task_effects :=
                  task_effects t0 ++ [GetData (feature_embedding opts)] |})
    in *.
  pose proof (obtain_image_matched fuel F t1 d ds img found.2
                (with_resolution vp2 w h)
                (eq_trans (f_equal (fun m => m !! image_embedding opts)
                             Himages) Hlook)
                eq_refl Hmatch) as Himg2.
  pose proof (compute_view_compose _ _ _ _ _ _ _ Hload2 Himg2) as Hsecond.
  simpl in Hsecond. fold w h blob in Hsecond.
  eexists. split; [|split; [|split]].
  - rewrite Hsecond. f_equal. f_equal.
    rewrite Hview. unfold closing_view. rewrite Hname. simpl.
    by rewrite insert_insert_eq.
  - by destruct (initialize_viewport_fields F (d :: ds) found.2
                   (with_resolution vp2 w h)) as (-> & _).
  - by destruct (initialize_viewport_fields F (d :: ds) found.2
                   (with_resolution vp2 w h)) as (_ & -> & _).
  - intros vp1 Hvp1. rewrite Hvp1 in Hslot.
    destruct (task_viewport t) as [vp|]; [|discriminate].
    simpl in Hslot. injection Hslot as ->.
    apply initialize_viewport_same.
Qed.

(** ** The slots of a whole call *)

(** Where the vector of a descriptor lies in the buffer of a filled
    slot. *)
Lemma initialize_viewport_buffer (F : FEATURE) (ds : Descriptors)
    (img : ByteImage) (vp : Viewport) (j : nat) (d : Descriptor) (k : nat)
    (c : float) :
  ds !! j = Some d ->
  (k < descriptor_length F)%nat ->
  data d !! k = Some c ->
  descr_data (initialize_viewport F ds img vp)
    !! (j * descriptor_length F + k)%nat = Some c.
Proof.
  intros Hj Hk Hc. unfold initialize_viewport.
  set (vp0 := {| width := width vp; height := height vp;
                 positions := _; colors := _; descr_data := _ |}).
  destruct (fill_viewport_at (descriptor_length F) img ds 0 0 vp0 j d Hj)
    as (_ & _ & Hdat).
  apply (Hdat k c Hk Hc). simpl. rewrite length_replicate.
  apply lookup_lt_Some in Hj. nia.
Qed.

(** X16: when [compute] returns normally with an output list, the slot of
    every view that is not [NULL] is filled with the features of that
    view: the descriptors and the image that lines 86-139 come to for the
    view, starting from a default slot, give its positions (in order), its
    colours (sampled from that image) and its buffer, which holds the
    vector of descriptor [j] from offset [j] times the descriptor length
    of the selected variant (128 for SIFT, 64 for SURF) on. *)
Theorem compute_fills_slots (fuel : nat) (scene : Scene)
    (type : FeatureType) (given : list Viewport) (r : Run) (i : nat)
    (v : View) :
  compute opts fuel (Some scene) type (Some given) = (r, Ok tt) ->
  get_views scene !! i = Some (Some v) ->
  exists F t1 ds t2 found vp0 vp,
    feature_of type = Some F
    /\ load_descriptors opts
         {| task_view := v; task_viewport := Some Viewport_default;
            task_effects := [] |} = (t1, Ok (Some ds))
    /\ task_viewport t1 = Some vp0
    /\ obtain_image opts fuel F ds t1 = (t2, Ok found)
    /\ slot_of r i = Some vp
    /\ vp = initialize_viewport F found.1 found.2 vp0
    /\ positions vp = (fun d => (x d, y d)) <$> found.1
    /\ colors vp = (fun d => linear_at found.2 (x d) (y d)) <$> found.1
    /\ length (descr_data vp)
       = (length found.1 * descriptor_length F)%nat
    /\ forall (j : nat) (d : Descriptor) (k : nat) (c : float),
         found.1 !! j = Some d ->
         (k < descriptor_length F)%nat ->
         data d !! k = Some c ->
         descr_data vp !! (j * descriptor_length F + k)%nat = Some c.
Proof.
  intros Hrun Hi.
  destruct (compute_inv _ _ _ _ _ _ Hrun) as [([=] & _)|[_ Hloop]].
  destruct (compute_views_at _ _ i v _ _ _ Hloop)
    as (F & t' & HF & Hview & _ & Hslot & _).
  - apply initial_run_slots_match.
  - apply schedule_NoDup.
  - apply schedule_elem. by apply lookup_lt_Some in Hi.
  - done.
  - assert (slot_of (initial_run scene (Some given)) i
            = Some Viewport_default) as Hinit.
    { unfold slot_of, initial_run. simpl. apply lookup_replicate_2.
      by apply lookup_lt_Some in Hi. }
    rewrite Hinit in Hview.
    destruct (compute_view_Ok _ _ _ _ Hview)
      as [[(_ & _ & [=]) _]|(_ & Hok)].
    destruct Hok as (t1 & ds & t2 & found & Hload & Himg & _ & Hvp & _).
    destruct (load_descriptors_frame _ _ _ Hload) as (_ & _ & Hsome & _).
    simpl in Hsome. destruct (proj2 Hsome) as [vp1 Hvp1]; [eauto|].
    rewrite Hvp1 in Hvp. simpl in Hvp.
    exists F, t1, ds, t2, found, vp1,
      (initialize_viewport F found.1 found.2 vp1).
    split; [done|]. split; [done|]. split; [done|]. split; [done|].
    split; [congruence|]. split; [done|].
    destruct (initialize_viewport_fields F found.1 found.2 vp1)
      as (_ & _ & Hp & Hc & Hd).
    split; [done|]. split; [done|]. split; [done|].
    intros j d k c. apply initialize_viewport_buffer.
Qed.

End Properties.

(** * Example scenes *)

Import Example.

(** C2, what the code does: a scene of one view without a cache entry and
    with a 100 x 100 source image, within the budget.  The call succeeds,
    the detector runs on the 100 x 100 image and the slot receives its one
    feature, but [width] and [height] of the slot are still those of the
    default-constructed slot. *)
Theorem recomputed_slot_lacks_resolution :
  let run :=
    compute (options false 1000000 false false) 10
      (Some one_fresh_view) SIFT_FEATURES (Some []) in
  run.2 = Ok tt
  /\ run_effects run.1
     = [(0%nat, GetByteImage "original");
        (0%nat, RunFeature Sift (image 100 100));
        (0%nat, CacheCleanup)]
  /\ exists vp,
       run_viewports run.1 = Some [vp]
       /\ positions vp = [(1, 2)]
       /\ width vp = 0 /\ height vp = 0.
Proof.
  vm_compute. split; [reflexivity|]. split; [reflexivity|].
  eexists. split; [reflexivity|]. repeat split.
Qed.

(** C1, what the code does: the variant is checked inside the loop, in the
    iteration of a view that is not [NULL].  With an unrecognised variant
    and a scene whose only view is [NULL], [compute] raises nothing: it
    returns normally, and has reset the output list on the way. *)
Lemma unknown_variant_accepted :
  compute cache_options 10 (Some absent_view) (OTHER_FEATURES 7) (Some [])
  = ({| run_views := [None];
        run_viewports := Some [Viewport_default];
        run_effects := [] |},
     Ok tt).
Proof. reflexivity. Qed.

(** C9, the claim as stated fails: the task of a skipped view completes
    without the clean-up call. *)
Lemma skipped_task_without_cleanup :
  compute_view cache_options 10 Surf skip_task = (skip_task, Ok tt)
  /\ CacheCleanup ∉ task_effects skip_task.
Proof. split; [by vm_compute|]. apply not_elem_of_nil. Qed.

(** The compute path with a cache store configured: the 100 x 100 image
    is halved once to meet the budget, the detector runs on the 50 x 50
    image, and the result is written back and saved before the clean-up. *)
Lemma fresh_task_written_back :
  let run := compute_view cache_options 10 Surf fresh_task in
  run.2 = Ok tt
  /\ task_effects run.1
     = [GetByteImage "original";
        RunFeature Surf (image 50 50);
        SetData "features"
          ([(1, 2, replicate (descriptor_length Surf) 50)], 50, 50);
        SaveMveFile;
        CacheCleanup].
Proof. by vm_compute. Qed.

(** The task of a view whose source image cannot be halved to the cached
    resolution ends with the exception of line 138; the clean-up of line 169
    is not reached. *)
Lemma failed_task_without_cleanup :
  let run :=
    compute_view cache_options 10 Surf
      (task (cached_view 100 100 64 64) (Some Viewport_default)) in
  run.2 = Throw (runtime_error "Error rescaling image to match descriptors")
  /\ task_effects run.1 = [GetData "features"; GetByteImage "original"].
Proof. by vm_compute. Qed.

(** ** The theorems at work on the example scenes *)

(** Under OpenMP, with a view that is not [NULL], the exception thrown for
    an unrecognised variant ends in [std::terminate]. *)
Lemma compute_unknown_variant_witness :
  compute cache_options 10 (Some one_fresh_view) (OTHER_FEATURES 7)
    (Some [])
  = (initial_run one_fresh_view (Some []),
     Terminate (invalid_argument "Invalid feature type")).
Proof.
  refine (compute_unknown_variant cache_options 10 one_fresh_view 7
            (Some []) _ _).
  - exists 0%nat, (fresh_view 100 100). reflexivity.
  - left. by eexists.
Defined.

Lemma rescale_to_match_exact_witness :
  rescale_to_match 512 (image 256 256) 64 64 = Ok (image 64 64)
  /\ rescale_to_match 512 (image 100 100) 64 64
     = Throw (runtime_error "Error rescaling image to match descriptors")
  /\ rescale_to_match 512 (image 256 256) 64 64 <> Timeout.
Proof.
  destruct (rescale_to_match_exact 512 (image 256 256) 64 64)
    as (_ & _ & _ & _ & Hends & Hdecided).
  destruct (rescale_to_match_exact 512 (image 100 100) 64 64)
    as (_ & _ & _ & _ & _ & Hdecided').
  split; [|split].
  - refine (Hdecided 2%nat _ _ _).
    + lia.
    + intros [|[|k]] Hk; [by vm_compute|by vm_compute|lia].
    + intros [Hw _]. by vm_compute in Hw.
  - refine (Hdecided' 1%nat _ _ _).
    + lia.
    + intros [|k] Hk; [by vm_compute|lia].
    + intros [Hw _]. by vm_compute in Hw.
  - apply Hends; [left; lia|simpl; lia].
Defined.

(** C4, the claim as stated fails: the pixel count of a 65536 x 65536
    image is 2^32, which the [int] product of line 114 takes to 0; the
    image is over a budget of 1000000 pixels and is returned as it is, not
    halved once. *)
Lemma budget_loop_overflows :
  rescale_to_budget 10 (image 65536 65536) 1000000
  = Some (false, image 65536 65536)
  /\ image_width (image 65536 65536) * image_height (image 65536 65536)
     > 1000000.
Proof. split; reflexivity. Qed.

Lemma rescale_to_budget_within_budget_witness :
  exists (was_scaled : bool) (img' : ByteImage) (n : nat),
    rescale_to_budget 100 (image 100 100) 5000 = Some (was_scaled, img')
    /\ image_width img' * image_height img' <= 5000
    /\ img' = Nat.iter n rescale_half_size (image 100 100)
    /\ (100 * 100 > 5000 -> (1 <= n)%nat /\ was_scaled = true).
Proof.
  apply (rescale_to_budget_within_budget 100 (image 100 100) 5000);
    unfold int_max; simpl; lia.
Defined.

Lemma initialize_viewport_layout_witness :
  let vp' :=
    initialize_viewport Surf (detect Surf (image 8 8)) (image 8 8)
      Viewport_default in
  positions vp' !! 0%nat = Some (1, 2)
  /\ colors vp' !! 0%nat = Some 8
  /\ descr_data vp' !! 63%nat = Some 8.
Proof.
  destruct (initialize_viewport_layout Surf (detect Surf (image 8 8))
              (image 8 8) Viewport_default) as (_ & _ & _ & Hat).
  destruct (Hat 0%nat _ eq_refl) as (Hp & Hc & Hd).
  split; [exact Hp|]. split; [exact Hc|].
  apply (Hd 63%nat 8); [simpl; lia|reflexivity].
Defined.

Lemma write_back_on_both_paths_witness :
  let t' := (compute_view cache_options 10 Surf load_task).1 in
  view_data (task_view t') !! "features"
  = Some ([(1, 2, replicate (descriptor_length Surf) 5)], 64, 64)
  /\ SaveMveFile ∈ task_effects t'.
Proof.
  destruct (write_back_on_both_paths cache_options 10 Surf load_task
              (compute_view cache_options 10 Surf load_task).1)
    as (t1 & ds & t2 & found & Hload & Himg & Hdata & _ & Hsave).
  - reflexivity.
  - reflexivity.
  - intros (_ & _ & Hslot). discriminate Hslot.
  - by vm_compute.
  - vm_compute in Hload. injection Hload as <- <-.
    vm_compute in Himg. injection Himg as <- <-.
    split; [exact Hdata|]. by apply Hsave.
Defined.

Lemma cached_view_without_output_is_skipped_witness :
  exists t',
    compute_view cache_options 10 Surf skip_task = (t', Ok tt)
    /\ (forall name, GetByteImage name ∉ task_effects t')
    /\ (forall F' img, RunFeature F' img ∉ task_effects t').
Proof.
  apply (cached_view_without_output_is_skipped cache_options 10 Surf
           skip_task); try reflexivity.
  eexists. by vm_compute.
Defined.

Lemma compute_checks_arguments_witness :
  exists what,
    compute (options false 5000 false false) 10 (Some two_views)
      SIFT_FEATURES None
    = ({| run_views := get_views two_views;
          run_viewports := None;
          run_effects := [] |},
       Throw (invalid_argument what)).
Proof.
  apply (compute_checks_arguments (options false 5000 false false) 10
           (Some two_views) SIFT_FEATURES None).
  right. split; reflexivity.
Defined.

Lemma cache_cleanup_after_processing_witness :
  exists es,
    task_effects (compute_view cache_options 10 Surf load_task).1
    = es ++ [CacheCleanup]
    /\ CacheCleanup ∉ es.
Proof.
  destruct (cache_cleanup_after_processing cache_options 10 Surf load_task
              (compute_view cache_options 10 Surf load_task).1)
    as [[(_ & _ & Hslot) _]|[_ Hlast]].
  - reflexivity.
  - by vm_compute.
  - discriminate Hslot.
  - exact Hlast.
Defined.

Lemma cached_view_is_left_unmodified_witness :
  let run := compute cache_options 10 (Some two_views) SURF_FEATURES None in
  run_views run.1 !! 0%nat = Some (Some (cached_view 256 256 64 64))
  /\ forall e, (0%nat, e) ∉ run_effects run.1.
Proof.
  apply (cached_view_is_left_unmodified cache_options 10 two_views
           SURF_FEATURES 0 (cached_view 256 256 64 64) _
           (compute cache_options 10 (Some two_views) SURF_FEATURES None).2).
  - reflexivity.
  - reflexivity.
  - eexists. by vm_compute.
  - by destruct (compute cache_options 10 (Some two_views) SURF_FEATURES
                   None).
Defined.

(** ** The further properties at work on the example scenes *)

(** The stand-in codec decodes what it encodes. *)
Lemma example_codec_round_trip (ds : Descriptors) (w h : Z) :
  embedding_to_descriptors (descriptors_to_embedding ds w h)
  = inr (ds, w, h).
Proof.
  simpl. do 3 f_equal. induction ds as [|[dx dy dd] ds IH]; simpl; [done|].
  by rewrite IH.
Qed.

Lemma compute_without_present_view_witness :
  compute cache_options 10 (Some absent_view) SIFT_FEATURES (Some [])
  = (initial_run absent_view (Some []), Ok tt).
Proof.
  apply (compute_without_present_view cache_options 10 absent_view
           SIFT_FEATURES (Some [])).
  - intros [|i] v; discriminate.
  - left. by eexists.
Defined.

Lemma absent_view_is_passed_over_witness :
  let r :=
    (compute cache_options 10 (Some absent_view) SURF_FEATURES (Some [])).1
  in
  run_views r !! 0%nat = Some None
  /\ effects_at 0 r = []
  /\ forall l, run_viewports r = Some l -> l !! 0%nat = Some Viewport_default.
Proof.
  apply (absent_view_is_passed_over cache_options 10 absent_view
           SURF_FEATURES (Some []) 0).
  reflexivity.
Defined.

Lemma compute_runs_each_view_task_witness :
  exists F t',
    feature_of SURF_FEATURES = Some F
    /\ compute_view cache_options 10 F
         {| task_view := fresh_view 100 100;
            task_viewport := None;
            task_effects := [] |} = (t', Ok tt)
    /\ run_views
         (compute cache_options 10 (Some two_views) SURF_FEATURES None).1
       !! 1%nat = Some (Some (task_view t'))
    /\ slot_of
         (compute cache_options 10 (Some two_views) SURF_FEATURES None).1 1
       = task_viewport t'
    /\ effects_at 1
         (compute cache_options 10 (Some two_views) SURF_FEATURES None).1
       = task_effects t'.
Proof.
  apply (compute_runs_each_view_task cache_options 10 two_views
           SURF_FEATURES None _ 1 (fresh_view 100 100)).
  - by vm_compute.
  - reflexivity.
Defined.

Lemma compute_without_cache_store_keeps_scene_witness :
  run_views
    (compute plain_options 10 (Some two_views) SIFT_FEATURES (Some [])).1
  = get_views two_views.
Proof.
  apply (compute_without_cache_store_keeps_scene plain_options 10 two_views
           SIFT_FEATURES (Some [])).
  reflexivity.
Defined.

Lemma rescale_to_match_without_halving_witness :
  rescale_to_match 0 (image 50 100) 64 64
  = Throw (runtime_error "Error rescaling image to match descriptors").
Proof.
  apply (rescale_to_match_without_halving 0 (image 50 100) 64 64).
  left. simpl. lia.
Defined.


Lemma budget_resolution_is_matched_witness :
  rescale_to_match 10 (image 100 100) 50 50 = Ok (image 50 50).
Proof.
  apply (budget_resolution_is_matched 10 (image 100 100) (image 50 50)
           5000 true); simpl; try lia.
  reflexivity.
Defined.

Lemma initialize_viewport_contents_witness :
  initialize_viewport Surf (detect Surf (image 8 8)) (image 8 8)
    Viewport_default
  = {| width := 0; height := 0;
       positions := [(1, 2)];
       colors := [8];
       descr_data := replicate (descriptor_length Surf) 8 ++ [] |}.
Proof.
  rewrite (initialize_viewport_contents Surf (detect Surf (image 8 8))
             (image 8 8) Viewport_default); [reflexivity|].
  repeat constructor.
Defined.

Lemma fresh_view_is_computed_witness :
  exists img was_scaled found,
    view_images (task_view fresh_task) !! "original" = Some img
    /\ rescale_to_budget 10 img 5000 = Some (was_scaled, found.2)
    /\ run_feature Surf found.2 = inr found.1
    /\ (compute_view cache_options 10 Surf fresh_task).1
       = {| task_view :=
              closing_view cache_options
                (descriptors_to_embedding found.1
                   (image_width found.2) (image_height found.2))
                (task_view fresh_task);
            task_viewport :=
              initialize_viewport Surf found.1 found.2
              <$> task_viewport fresh_task;
            task_effects :=
              task_effects fresh_task
              ++ [GetByteImage "original"; RunFeature Surf found.2]
              ++ closing_effects cache_options
                   (descriptors_to_embedding found.1
                      (image_width found.2) (image_height found.2)) |}.
Proof.
  apply (fresh_view_is_computed cache_options 10 Surf fresh_task).
  - right. reflexivity.
  - by vm_compute.
Defined.

Lemma cached_view_is_loaded_witness :
  exists img img',
    view_images (task_view load_task) !! "original" = Some img
    /\ rescale_to_match 10 img 64 64 = Ok img'
    /\ image_width img' = 64 /\ image_height img' = 64
    /\ task_viewport (compute_view cache_options 10 Surf load_task).1
       = Some (initialize_viewport Surf
                 [decode (1, 2, replicate (descriptor_length Surf) 5)]
                 img' (with_resolution Viewport_default 64 64)).
Proof.
  destruct (cached_view_is_loaded cache_options 10 Surf load_task
              (compute_view cache_options 10 Surf load_task).1
              ([(1, 2, replicate (descriptor_length Surf) 5)], 64, 64)
              (decode (1, 2, replicate (descriptor_length Surf) 5))
              [] 64 64 Viewport_default)
    as (img & img' & Hlook & Hmatch & Hw & Hh & Hres).
  - reflexivity.
  - by vm_compute.
  - reflexivity.
  - reflexivity.
  - by vm_compute.
  - exists img, img'. repeat (split; [assumption|]).
    cbv zeta in Hres. by rewrite Hres.
Defined.

Lemma empty_cache_entry_is_recomputed_witness :
  exists img was_scaled found,
    view_images (empty_cached_view 100 100 64 64) !! "original" = Some img
    /\ rescale_to_budget 10 img 5000 = Some (was_scaled, found.2)
    /\ run_feature Surf found.2 = inr found.1
    /\ task_viewport
         (compute_view cache_options 10 Surf
            (task (empty_cached_view 100 100 64 64)
               (Some Viewport_default))).1
       = Some (initialize_viewport Surf found.1 found.2
                 (with_resolution Viewport_default 64 64)).
Proof.
  destruct (empty_cache_entry_is_recomputed cache_options 10 Surf
              (task (empty_cached_view 100 100 64 64)
                 (Some Viewport_default))
              (compute_view cache_options 10 Surf
                 (task (empty_cached_view 100 100 64 64)
                    (Some Viewport_default))).1
              ([], 64, 64) 64 64 Viewport_default)
    as (img & scaled & found & Hlook & Hbudget & Hfeat & Hres).
  - reflexivity.
  - by vm_compute.
  - reflexivity.
  - reflexivity.
  - by vm_compute.
  - exists img, scaled, found. repeat (split; [assumption|]).
    cbv zeta in Hres. by rewrite Hres.
Defined.

Lemma failure_precedes_write_back_witness :
  compute_view cache_options 10 Surf mismatched_task
  = ((compute_view cache_options 10 Surf mismatched_task).1,
     Throw (runtime_error "Error rescaling image to match descriptors"))
  /\ task_view (compute_view cache_options 10 Surf mismatched_task).1
     = task_view mismatched_task
  /\ exists es,
      task_effects (compute_view cache_options 10 Surf mismatched_task).1
      = task_effects mismatched_task ++ es
      /\ Forall reads es.
Proof.
  apply (failure_precedes_write_back cache_options 10 Surf mismatched_task).
  right.
  exists (load_descriptors cache_options mismatched_task).1,
    [decode (1, 2, replicate (descriptor_length Surf) 5)],
    (Throw (runtime_error "Error rescaling image to match descriptors")).
  split; [by vm_compute|]. split; [by vm_compute|reflexivity].
Defined.

Lemma cached_features_are_reused_witness :
  exists found,
    run_feature Surf found.2 = inr found.1
    /\ task_viewport (compute_view cache_options 10 Surf fresh_task).1
       = initialize_viewport Surf found.1 found.2
         <$> task_viewport fresh_task
    /\ (found.1 <> [] ->
        exists vp2',
          compute_view cache_options 10 Surf
            {| task_view :=
                 task_view (compute_view cache_options 10 Surf fresh_task).1;
               task_viewport := Some Viewport_default;
               task_effects := [] |}
          = ({| task_view :=
                  task_view
                    (compute_view cache_options 10 Surf fresh_task).1;
                task_viewport := Some vp2';
                task_effects :=
                  [GetData "features"; GetByteImage "original"]
                  ++ closing_effects cache_options
                       (descriptors_to_embedding found.1
                          (image_width found.2) (image_height found.2)) |},
             Ok tt)
          /\ width vp2' = image_width found.2
          /\ height vp2' = image_height found.2
          /\ forall vp1,
               task_viewport (compute_view cache_options 10 Surf fresh_task).1
               = Some vp1 ->
               positions vp2' = positions vp1
               /\ colors vp2' = colors vp1
               /\ descr_data vp2' = descr_data vp1).
Proof.
  apply (cached_features_are_reused cache_options 10 Surf fresh_task
           (compute_view cache_options 10 Surf fresh_task).1
           Viewport_default).
  - apply example_codec_round_trip.
  - reflexivity.
  - reflexivity.
  - reflexivity.
  - simpl. lia.
  - intros img Himg. vm_compute in Himg. injection Himg as <-.
    simpl. lia.
  - by vm_compute.
Defined.

Lemma compute_fills_slots_witness :
  exists F t1 ds t2 found vp0 vp,
    feature_of SIFT_FEATURES = Some F
    /\ load_descriptors plain_options
         {| task_view := fresh_view 100 100;
            task_viewport := Some Viewport_default;
            task_effects := [] |} = (t1, Ok (Some ds))
    /\ task_viewport t1 = Some vp0
    /\ obtain_image plain_options 10 F ds t1 = (t2, Ok found)
    /\ slot_of
         (compute plain_options 10 (Some one_fresh_view) SIFT_FEATURES
            (Some [])).1 0
       = Some vp
    /\ vp = initialize_viewport F found.1 found.2 vp0
    /\ positions vp = (fun d => (x d, y d)) <$> found.1
    /\ colors vp = (fun d => linear_at found.2 (x d) (y d)) <$> found.1
    /\ length (descr_data vp)
       = (length found.1 * descriptor_length F)%nat
    /\ forall (j : nat) (d : Descriptor) (k : nat) (c : float),
         found.1 !! j = Some d ->
         (k < descriptor_length F)%nat ->
         data d !! k = Some c ->
         descr_data vp !! (j * descriptor_length F + k)%nat = Some c.
Proof.
  apply (compute_fills_slots plain_options 10 one_fresh_view SIFT_FEATURES
           [] _ 0 (fresh_view 100 100)).
  - by vm_compute.
  - reflexivity.
Defined.
